(** * tasm: a tape machine and its single-pass assembler

    A shallow embedding of [tasm.c]: the tape of [BLOCK]s, the tape pointer
    [_ptr], the lowering of mnemonics to primitive cells
    ([load_deref_instructions], [load_instruction], [assemble_tasm]), the
    display flush ([output]) and the fetch-decode-execute loop ([run]).

    Conventions.
    - A [DWORD] ([unsigned long], 4 bytes of data in the source) is an [N]
      below [2^32]; every arithmetic operation that can leave that range is
      wrapped explicitly with [wrap].
    - The tape is the static array [tape[301000]], zero-initialised by the C
      runtime; it is a finite map from index to [BLOCK] whose absent keys read
      as the all-zero block.  An access outside [0 .. _END] is outside the
      array: the model answers [Undefined] there.
    - [exit(1)] after a diagnostic is the result [Exit e]. *)

From Stdlib Require Import NArith String Ascii List Lia DecimalString.
From stdpp Require Import base option gmap strings.

Local Open Scope string_scope.
Local Open Scope N_scope.

(** ** Memory addresses *)

Abbreviation DWORD := N (only parsing).
Abbreviation BYTE := N (only parsing).

Definition DWORD_MOD : N := 4294967296.          (* 2^32 *)
Definition ULONG_MAX : N := 4294967295.
Definition DWORD_BITS : N := 32.

Definition wrap (x : N) : DWORD := x mod DWORD_MOD.

Definition _MEM : N := 0.
Definition _MEM_END : N := 99999.
Definition _STACK_END : N := 100000.
Definition _STACK : N := 100999.
Definition _OUT : N := 101000.
Definition _OUT_END : N := 200999.
Definition _MAIN : N := 201000.
Definition _END : N := 300999.

Definition _TEMP : N := 0.
Definition _ZF : N := 1.
Definition _CF : N := 2.
Definition _DISP : N := 3.
Definition _STK : N := 4.
Definition _SAFE_MEM : N := 5.

(** ** The instruction set, blocks and the tape pointer *)

Inductive INSTRUCTION : Type :=
| I_NONE | I_HALT
| I_JUMP | I_CMP | I_JE | I_JNE | I_JG | I_JGE | I_JL | I_JLE
| I_READ | I_WRITE | I_CALL | I_RET
| I_AND | I_OR | I_XOR | I_NOT | I_LSHIFT | I_RSHIFT
| I_ADD | I_SUB | I_MUL | I_DIV
| I_OUT.

Record BLOCK : Type := mkBLOCK { ins : INSTRUCTION; data : DWORD; dtype : BYTE }.

Record TAPE_PTR : Type := mkPTR { pos : DWORD; ptr_data : DWORD; ptr_dtype : BYTE }.

Definition zero_block : BLOCK := mkBLOCK I_NONE 0 0.

#[export] Instance BLOCK_inhabited : Inhabited BLOCK := populate zero_block.

#[export] Instance INSTRUCTION_eq_dec : EqDecision INSTRUCTION.
Proof. solve_decision. Defined.

Definition set_ins (i : INSTRUCTION) (b : BLOCK) : BLOCK := mkBLOCK i (data b) (dtype b).
Definition set_data (d : DWORD) (b : BLOCK) : BLOCK := mkBLOCK (ins b) d (dtype b).
Definition set_dtype (t : BYTE) (b : BLOCK) : BLOCK := mkBLOCK (ins b) (data b) t.

(** The globals of the program: the tape, the tape pointer, and the text
    written to standard output so far. *)
Record machine : Type := mkMachine {
  tape : gmap N BLOCK;
  _ptr : TAPE_PTR;
  stdout : string
}.

Definition with_tape (t : gmap N BLOCK) (m : machine) : machine :=
  mkMachine t (_ptr m) (stdout m).
Definition with_pos (p : DWORD) (m : machine) : machine :=
  mkMachine (tape m) (mkPTR p (ptr_data (_ptr m)) (ptr_dtype (_ptr m))) (stdout m).
Definition with_scratch (d : DWORD) (t : BYTE) (m : machine) : machine :=
  mkMachine (tape m) (mkPTR (pos (_ptr m)) d t) (stdout m).
Definition with_stdout (s : string) (m : machine) : machine :=
  mkMachine (tape m) (_ptr m) s.

(** [tape[i].f = v] for an index inside the array. *)
Definition poke (i : N) (f : BLOCK -> BLOCK) (t : gmap N BLOCK) : gmap N BLOCK :=
  <[i := f (t !!! i)]> t.

(** All cells zero, pointer zero, nothing printed: the state at program start. *)
Definition boot : machine := mkMachine ∅ (mkPTR 0 0 0) "".

(** ** Results *)

(** The diagnostics after which the program calls [exit(1)]. *)
Inductive error : Type :=
| InstructionMemoryOverflow     (* assembler: instruction memory limit exceeded *)
| DuplicateLabel                (* assembler: duplicate label definitions *)
| UndefinedLabel                (* assembler: undefined label *)
| MissingMain                   (* assembler: could not find main *)
| MemoryOutOfBounds (a : DWORD) (* run: memory out of bounds, address a does not exist *)
| StackOverflow.                (* run: stack overflow occurred *)

Inductive result (A : Type) : Type :=
| Ok (a : A)
| Exit (e : error)
| Undefined.

Arguments Ok {A} a.
Arguments Exit {A} e.
Arguments Undefined {A}.

#[export] Instance result_bind : MBind result := fun A B k r =>
  match r with
  | Ok a => k a
  | Exit e => Exit e
  | Undefined => Undefined
  end.

(** An assembler statement acts on the globals. *)
Definition action : Type := machine -> result machine.

Definition andthen (a b : action) : action := fun m => a m ≫= b.
Infix ">>" := andthen (at level 62, right associativity).

Definition skip : action := fun m => Ok m.
Definition when (c : bool) (a : action) : action := if c then a else skip.

(** ** The assembler: lowering of mnemonics

    The statements [tape[_ptr.pos].f = v] and [_ptr.pos++] of the source.  A
    store needs [_ptr.pos] to index the array.  An operand is [None] when
    [assemble_tasm] never assigned the local ([a1] or [a2]) it is passed from;
    storing such an indeterminate value is [Undefined]. *)

Definition store (f : BLOCK -> BLOCK) : action := fun m =>
  if pos (_ptr m) <=? _END
  then Ok (with_tape (poke (pos (_ptr m)) f (tape m)) m)
  else Undefined.

Definition store_ins (i : INSTRUCTION) : action := store (set_ins i).
Definition store_data (d : DWORD) : action := store (set_data d).
Definition store_dtype (t : BYTE) : action := store (set_dtype t).

Definition store_operand (a : option DWORD) : action :=
  match a with
  | Some d => store_data d
  | None => fun _ => Undefined
  end.

Definition advance : action := fun m => Ok (with_pos (wrap (pos (_ptr m) + 1)) m).

(** [tape[_ptr.pos].ins = i; tape[_ptr.pos].data = a; _ptr.pos++;] *)
Definition emit (i : INSTRUCTION) (a : option DWORD) : action :=
  store_ins i >> store_operand a >> advance.

Definition load_deref_instructions (addr : option DWORD) (overwrite_at : N) : action :=
  store_ins I_READ >> store_operand addr >> advance >>
  store_ins I_WRITE >>
  (fun m => store_data (wrap (pos (_ptr m) + overwrite_at)) m) >>
  advance.

(** The shared shape of the one-operand mnemonics. *)
Definition load_unary (deref_1 : bool) (i : INSTRUCTION) (a1 : option DWORD) : action :=
  when deref_1 (load_deref_instructions a1 1) >>
  emit i a1.

(** The shared shape of the two-operand mnemonics other than [put] and [sub]. *)
Definition load_binary (deref_1 deref_2 : bool) (i : INSTRUCTION)
    (a1 a2 : option DWORD) : action :=
  when deref_2 (load_deref_instructions a2 (if deref_1 then 3 else 1)) >>
  when deref_1 (load_deref_instructions a1 2) >>
  emit I_READ a2 >>
  emit i a1.

Definition load_instruction (mnemonic : string) (a1 a2 : option DWORD)
    (data_type : BYTE) (deref_1 deref_2 : bool) : action :=
  (* 0 operand instructions *)
  if String.eqb mnemonic "hlt" then emit I_HALT (Some 0)
  else if String.eqb mnemonic "out" then emit I_OUT (Some 0)
  else if String.eqb mnemonic "ret" then emit I_RET (Some 0)
  (* 1 operand instructions *)
  else if String.eqb mnemonic "not" then load_unary deref_1 I_NOT a1
  else if String.eqb mnemonic "jmp" then load_unary deref_1 I_JUMP a1
  else if String.eqb mnemonic "call" then load_unary deref_1 I_CALL a1
  else if String.eqb mnemonic "je" then load_unary deref_1 I_JE a1
  else if String.eqb mnemonic "jne" then load_unary deref_1 I_JNE a1
  else if String.eqb mnemonic "jg" then load_unary deref_1 I_JG a1
  else if String.eqb mnemonic "jge" then load_unary deref_1 I_JGE a1
  else if String.eqb mnemonic "jl" then load_unary deref_1 I_JL a1
  else if String.eqb mnemonic "jle" then load_unary deref_1 I_JLE a1
  (* 2 operand instructions *)
  else if String.eqb mnemonic "cmp" then load_binary deref_1 deref_2 I_CMP a1 a2
  else if String.eqb mnemonic "put" then
    when deref_2 (load_deref_instructions a2 (if deref_1 then 3 else 1)) >>
    when deref_1 (load_deref_instructions a1 3) >>
    store_ins I_NONE >> store_operand a2 >> store_dtype data_type >> advance >>
    store_ins I_READ >>
    (fun m => store_data (wrap (pos (_ptr m) + DWORD_MOD - 1)) m) >>
    advance >>
    emit I_WRITE a1
  else if String.eqb mnemonic "mov" then load_binary deref_1 deref_2 I_WRITE a1 a2
  else if String.eqb mnemonic "and" then load_binary deref_1 deref_2 I_AND a1 a2
  else if String.eqb mnemonic "or" then load_binary deref_1 deref_2 I_OR a1 a2
  else if String.eqb mnemonic "xor" then load_binary deref_1 deref_2 I_XOR a1 a2
  else if String.eqb mnemonic "lsh" then load_binary deref_1 deref_2 I_LSHIFT a1 a2
  else if String.eqb mnemonic "rsh" then load_binary deref_1 deref_2 I_RSHIFT a1 a2
  else if String.eqb mnemonic "add" then load_binary deref_1 deref_2 I_ADD a1 a2
  else if String.eqb mnemonic "sub" then
    load_binary deref_1 deref_2 I_SUB a1 a2 >>
    advance                                   (* the second [_ptr.pos++] *)
  else if String.eqb mnemonic "mul" then load_binary deref_1 deref_2 I_MUL a1 a2
  else if String.eqb mnemonic "div" then load_binary deref_1 deref_2 I_DIV a1 a2
  else skip.                                  (* no mnemonic matched: nothing is emitted *)

(** ** The assembler: operands and lines *)

(** [strtoul(s, NULL, base)] of the C library (ISO C 7.22.1.4), for the two
    bases the assembler passes, 16 and 0: leading white space, an optional
    sign, an optional [0x] prefix, then the longest run of digits of the
    base; no digits give 0, a value that does not fit gives [ULONG_MAX], a
    minus sign negates in the unsigned type. *)
Definition isspace (c : ascii) : bool :=
  let n := N_of_ascii c in (n =? 32) || ((9 <=? n) && (n <=? 13)).

Definition digit_of (c : ascii) : option N :=
  let n := N_of_ascii c in
  if (48 <=? n) && (n <=? 57) then Some (n - 48)
  else if (97 <=? n) && (n <=? 122) then Some (n - 87)
  else if (65 <=? n) && (n <=? 90) then Some (n - 55)
  else None.

Fixpoint skip_spaces (s : string) : string :=
  match s with
  | String c r => if isspace c then skip_spaces r else s
  | EmptyString => s
  end.

Fixpoint read_digits (base : N) (s : string) (acc : N) : N :=
  match s with
  | String c r =>
      match digit_of c with
      | Some d => if d <? base then read_digits base r (acc * base + d) else acc
      | None => acc
      end
  | EmptyString => acc
  end.

Definition has_hex_prefix (s : string) : bool :=
  match s with
  | String z (String x (String h _)) =>
      (N_of_ascii z =? 48) && ((N_of_ascii x =? 120) || (N_of_ascii x =? 88)) &&
      match digit_of h with Some d => d <? 16 | None => false end
  | _ => false
  end.

Definition strtoul (s : string) (base : N) : DWORD :=
  let s1 := skip_spaces s in
  let '(neg, s2) :=
    match s1 with
    | String c r =>
        if N_of_ascii c =? 45 then (true, r)
        else if N_of_ascii c =? 43 then (false, r)
        else (false, s1)
    | EmptyString => (false, s1)
    end in
  let '(b, s3) :=
    if ((base =? 0) || (base =? 16)) && has_hex_prefix s2
    then (16, String.substring 2 (String.length s2 - 2) s2)
    else if base =? 0
    then (match s2 with
          | String z _ => if N_of_ascii z =? 48 then 8 else 10
          | EmptyString => 10
          end, s2)
    else (base, s2) in
  let v := read_digits b s3 0 in
  if ULONG_MAX <? v then ULONG_MAX
  else if neg then wrap (DWORD_MOD - v) else v.

(** [s[i]] in a buffer that was zero-filled before [sscanf] wrote the token. *)
Definition char_at (s : string) (i : nat) : ascii :=
  match String.get i s with Some c => c | None => zero end.

Definition is_char (c : ascii) (n : N) : bool := N_of_ascii c =? n.

(** [(DWORD)(second[i])]: plain [char] is signed, so a byte above 127 is
    sign-extended by the conversion. *)
Definition DWORD_of_char (c : ascii) : DWORD :=
  let n := N_of_ascii c in
  if n <? 128 then n else DWORD_MOD - 256 + n.

(** The three tokens [sscanf] with the format [%s %s %[^\n]] leaves in the
    buffers [ins], [first] and [second] for one line of the file, the comment
    already cut off.  The tokens are C strings: they hold no NUL character
    and fit their buffers. *)
Record source_line : Type := mkLine {
  line_ins : string;
  line_first : string;
  line_second : string
}.

(** The label table together with the globals. *)
Definition asm_state : Type := (gmap string DWORD * machine)%type.

(** The loop over the characters of a quoted second operand. *)
Fixpoint load_chars (mnemonic : string) (cs : list ascii) (a1 : option DWORD)
    (deref_1 deref_2 : bool) : action :=
  match cs with
  | [] => skip
  | c :: rest =>
      load_instruction mnemonic a1 (Some (DWORD_of_char c)) 1 deref_1 deref_2 >>
      load_chars mnemonic rest ((fun a => wrap (a + 1)) <$> a1) deref_1 deref_2
  end.

(** The first operand: an address [0x..], a bracketed address [[0x..]] that
    is marked for dereferencing, or a label; [None] when the token is empty
    and [a1] stays unassigned. *)
Definition first_operand (labels : gmap string DWORD) (first : string)
    : result (option DWORD * bool) :=
  let first_len := String.length first in
  if is_char (char_at first 0) 48 && is_char (char_at first 1) 120
  then Ok (Some (strtoul first 16), false)
  else if is_char (char_at first 0) 91 && is_char (char_at first 1) 48 &&
          is_char (char_at first 2) 120 &&
          is_char (char_at first (first_len - 1)) 93
  then Ok (Some (strtoul (String.substring 1 (first_len - 2) first) 16), true)
  else if Nat.ltb 0 first_len
  then match labels !! first with
       | Some a => Ok (Some a, false)
       | None => Exit UndefinedLabel
       end
  else Ok (None, false).

(** The second operand when it is not a quoted string: a bracketed number
    marked for dereferencing, or a number (hex / oct / dec). *)
Definition second_operand (second : string) : option DWORD * bool :=
  let len := String.length second in
  if is_char (char_at second 0) 91 && is_char (char_at second (len - 1)) 93
  then (Some (strtoul (String.substring 1 (len - 2) second) 0), true)
  else if Nat.ltb 0 len
  then (Some (strtoul second 0), false)
  else (None, false).

(** The characters [second[1] .. second[len - 2]] the string loop visits. *)
Definition string_chars (second : string) : list ascii :=
  list_ascii_of_string (String.substring 1 (String.length second - 2) second).

(** One iteration of the [while (fgets ...)] loop. *)
Definition assemble_line (ln : source_line) (st : asm_state) : result asm_state :=
  let '(labels, m) := st in
  let mnemonic := line_ins ln in
  let ins_len := String.length mnemonic in
  if Nat.eqb ins_len 0 then Ok st
  else if _END <? pos (_ptr m) then Exit InstructionMemoryOverflow
  else if is_char (char_at mnemonic (ins_len - 1)) 58 then
    (* for labels *)
    let label := String.substring 0 (ins_len - 1) mnemonic in
    match labels !! label with
    | Some _ => Exit DuplicateLabel
    | None => Ok (<[label := pos (_ptr m)]> labels, m)
    end
  else
    operand_1 ← first_operand labels (line_first ln);
    let '(a1, deref_1) := operand_1 in
    if is_char (char_at (line_second ln) 0) 34 then
      (* for char / string data *)
      m' ← load_chars mnemonic (string_chars (line_second ln)) a1 deref_1 false m;
      Ok (labels, m')
    else
      let '(a2, deref_2) := second_operand (line_second ln) in
      m' ← load_instruction mnemonic a1 a2 0 deref_1 deref_2 m;
      Ok (labels, m').

Fixpoint assemble_lines (lines : list source_line) (st : asm_state) : result asm_state :=
  match lines with
  | [] => Ok st
  | ln :: rest => st' ← assemble_line ln st; assemble_lines rest st'
  end.

(** [assemble_tasm], from the first [fgets] on: the lines are assembled from
    [_MAIN], a halt is added at the end, the pointer is set to [main], and
    the display and stack registers get their initial addresses. *)
Definition assemble_tasm (lines : list source_line) : result machine :=
  st ← assemble_lines lines (∅, with_pos _MAIN boot);
  let '(labels, m) := st in
  m1 ← (store_ins I_HALT >> store_data 0) m;
  match labels !! "main" with
  | None => Exit MissingMain
  | Some main_addr =>
      Ok (with_tape
            (poke _STK (set_data _STACK) (poke _DISP (set_data _OUT) (tape m1)))
            (with_pos main_addr m1))
  end.

(** ** The display flush *)

(** [printf("%lu", val)] *)
Definition decimal (val : DWORD) : string := NilEmpty.string_of_uint (N.to_uint val).

Definition putchar (c : ascii) (out : string) : string := out ++ String c EmptyString.

(** The [while] loop of [output]: [cursor] is [_ptr.pos], [out] the text
    printed so far.  Each round moves the cursor up by one and the loop stops
    at [_OUT_END] at the latest, so [DISPLAY_SIZE] rounds of fuel are never
    used up when it starts from [_OUT]. *)
Fixpoint output_loop (fuel : nat) (t : gmap N BLOCK) (cursor : DWORD)
    (is_escaped : bool) (out : string) : string :=
  match fuel with
  | O => out
  | S fuel' =>
      if (cursor <? _OUT_END) && (cursor <? data (t !!! _DISP)) then
        let val := data (t !!! cursor) in
        if is_escaped then
          (* handle escape sequences *)
          let out' :=
            if val =? 110 then putchar (ascii_of_N 10) out
            else if val =? 114 then putchar (ascii_of_N 13) out
            else out in
          output_loop fuel' t (cursor + 1) false out'
        else if negb (dtype (t !!! cursor) =? 0) then
          (* if dtype is 1, treat like a char *)
          if val =? 92 then output_loop fuel' t (cursor + 1) true out
          else output_loop fuel' t (cursor + 1) false
                 (putchar (ascii_of_N (N.land val 255)) out)
        else output_loop fuel' t (cursor + 1) false (out ++ decimal val)
      else out
  end.

Definition DISPLAY_SIZE : N := 100000.

(** The rounds the loop can make between [_OUT] and [_OUT_END]. *)
Definition display_fuel : nat := N.to_nat DISPLAY_SIZE.

(** The text one call of [output] prints for a given tape. *)
Definition display_text (t : gmap N BLOCK) : string :=
  output_loop display_fuel t _OUT false "".

Definition output (m : machine) : machine :=
  let final_addr := wrap (pos (_ptr m) + 1) in
  with_pos final_addr
    (with_stdout (output_loop display_fuel (tape m) _OUT false (stdout m)) m).

#[global] Opaque display_fuel.

(** ** The fetch-decode-execute loop *)

Inductive outcome : Type :=
| Running (m : machine)    (* the loop goes round again *)
| Halted (m : machine)     (* [is_halted = 1]: the loop ends *)
| Fault (e : error)        (* a runtime error and [exit(1)] *)
| Undef.                   (* undefined in C: an index outside the tape,
                              a division by zero, a shift by 32 or more *)

(** [_ptr.pos++] and [_ptr.pos = a]. *)
Definition next (m : machine) : machine := with_pos (wrap (pos (_ptr m) + 1)) m.
Definition goto (a : DWORD) (m : machine) : machine := with_pos a m.

(** [tape[addr].data = f(tape[addr].data)] for an index checked against [_END]. *)
Definition update_data (addr : DWORD) (f : DWORD -> DWORD) (m : machine) : machine :=
  with_tape (poke addr (fun b => set_data (f (data b)) b) (tape m)) m.

Definition flag (b : bool) : DWORD := if b then 1 else 0.

Definition sub_wrap (x y : DWORD) : DWORD := wrap (x + (DWORD_MOD - wrap y)).

(** One round of the [while (!is_halted)] loop of [run].  The [default:] case
    of the [switch] is not there: [ins] only ever holds an enumerator. *)
Definition step (m : machine) : outcome :=
  let p := pos (_ptr m) in
  if _END <? p then Fault (MemoryOutOfBounds p) else
  let addr := data (tape m !!! p) in
  if _END <? addr then Fault (MemoryOutOfBounds addr) else
  let scratch := ptr_data (_ptr m) in
  let ZF := data (tape m !!! _ZF) in
  let CF := data (tape m !!! _CF) in
  match ins (tape m !!! p) with
  | I_NONE => Running (next m)
  | I_HALT => Halted m
  | I_JUMP => Running (goto addr m)
  | I_CMP =>
      let m1 := update_data _ZF (fun _ => flag (data (tape m !!! addr) =? scratch)) m in
      let m2 := update_data _CF (fun _ => flag (data (tape m1 !!! addr) <? scratch)) m1 in
      Running (next m2)
  | I_JE => Running (if ZF =? 1 then goto addr m else next m)
  | I_JNE => Running (if ZF =? 0 then goto addr m else next m)
  | I_JG => Running (if (ZF =? 0) && (CF =? 0) then goto addr m else next m)
  | I_JGE => Running (if CF =? 0 then goto addr m else next m)
  | I_JL => Running (if CF =? 1 then goto addr m else next m)
  | I_JLE => Running (if (ZF =? 1) || (CF =? 1) then goto addr m else next m)
  | I_READ =>
      Running (next (with_scratch (data (tape m !!! addr)) (dtype (tape m !!! addr)) m))
  | I_WRITE =>
      let m1 := with_tape (poke addr (set_data scratch) (tape m)) m in
      let m2 := with_tape (poke addr (set_dtype (ptr_dtype (_ptr m))) (tape m1)) m1 in
      let m3 :=
        if (data (tape m2 !!! _DISP) <=? addr) && (addr <=? _OUT_END)
        then update_data _DISP (fun _ => wrap (addr + 1)) m2
        else m2 in
      Running (next m3)
  | I_AND => Running (next (update_data addr (fun d => N.land d scratch) m))
  | I_OR => Running (next (update_data addr (fun d => N.lor d scratch) m))
  | I_XOR => Running (next (update_data addr (fun d => N.lxor d scratch) m))
  | I_NOT => Running (next (update_data addr (fun d => flag (d =? 0)) m))
  | I_LSHIFT =>
      if scratch <? DWORD_BITS
      then Running (next (update_data addr (fun d => wrap (N.shiftl d scratch)) m))
      else Undef
  | I_RSHIFT =>
      if scratch <? DWORD_BITS
      then Running (next (update_data addr (fun d => N.shiftr d scratch) m))
      else Undef
  | I_ADD => Running (next (update_data addr (fun d => wrap (d + scratch)) m))
  | I_SUB => Running (next (update_data addr (fun d => sub_wrap d scratch) m))
  | I_MUL => Running (next (update_data addr (fun d => wrap (d * scratch)) m))
  | I_DIV =>
      if scratch =? 0 then Undef
      else Running (next (update_data addr (fun d => d / scratch) m))
  | I_OUT => Running (output m)
  | I_CALL =>
      let STK := data (tape m !!! _STK) in
      if STK <? _STACK_END then Fault StackOverflow
      else if _END <? STK then Undef
      else
        let m1 := update_data STK (fun _ => wrap (p + 1)) m in
        let m2 := update_data _STK (fun d => wrap (d + DWORD_MOD - 1)) m1 in
        Running (goto addr m2)
  | I_RET =>
      let m1 := update_data _STK (fun d => wrap (d + 1)) m in
      let STK := data (tape m1 !!! _STK) in
      if _END <? STK then Undef
      else Running (goto (data (tape m1 !!! STK)) m1)
  end.

(** [run]: at most [fuel] rounds of the loop.  [Running m] is the state the
    loop is in when the fuel is used up. *)
Fixpoint run (fuel : nat) (m : machine) : outcome :=
  match fuel with
  | O => Running m
  | S fuel' =>
      match step m with
      | Running m' => run fuel' m'
      | o => o
      end
  end.

(** [main], after the argument checks: assemble, then run. *)
Definition tasm (fuel : nat) (lines : list source_line) : outcome :=
  match assemble_tasm lines with
  | Ok m => run fuel m
  | Exit e => Fault e
  | Undefined => Undef
  end.



(** ** The label table as the source has it: a hash map with chaining

    [Pair *map[STACK_SIZE]]: an array of [STACK_SIZE] chains.  A chain is
    the list of its [(key, value)] pairs from the head on; [next] is the
    tail.  Allocation ([malloc], [strdup]) is taken to succeed. *)

Definition STACK_SIZE : N := 1000.

Definition init_map : list (list (string * N)) :=
  replicate (N.to_nat STACK_SIZE) [].

(** The loop of [hash]: [h] becomes [h * 31] plus the character under [key],
    in [DWORD] arithmetic. *)
Fixpoint hash_loop (key : string) (h : DWORD) : DWORD :=
  match key with
  | EmptyString => h
  | String c rest => hash_loop rest (wrap (h * 31 + DWORD_of_char c))
  end.

Definition hash (key : string) : DWORD := hash_loop key 0 mod STACK_SIZE.

(** [map[index]]; the array has [STACK_SIZE] entries and [index] is a hash,
    so the access is always inside it. *)
Definition bucket (map : list (list (string * N))) (index : N) : list (string * N) :=
  default [] (map !! N.to_nat index).

(** The [while (curr != NULL)] loop of [map_get]. *)
Fixpoint chain_get (curr : list (string * N)) (key : string) : option DWORD :=
  match curr with
  | [] => None
  | (k, v) :: next => if String.eqb k key then Some v else chain_get next key
  end.

Definition map_get (map : list (list (string * N))) (key : string) : option DWORD :=
  chain_get (bucket map (hash key)) key.

(** The [while (curr != NULL)] loop of [map_insert]: the chain with the
    value of [key] replaced, when [key] is in it. *)
Fixpoint chain_update (curr : list (string * N)) (key : string) (value : DWORD)
    : option (list (string * N)) :=
  match curr with
  | [] => None
  | (k, v) :: next =>
      if String.eqb k key then Some ((k, value) :: next)
      else (fun next' => (k, v) :: next') <$> chain_update next key value
  end.

Definition map_insert (map : list (list (string * N))) (key : string) (value : DWORD)
    : list (list (string * N)) :=
  let index := hash key in
  match chain_update (bucket map index) key value with
  | Some chain => <[N.to_nat index := chain]> map
  | None => <[N.to_nat index := (key, value) :: bucket map index]> map
  end.

(** ** The command line *)

(** [strrchr(s, c)] for a character other than NUL: the index of the last
    [c] in [s]. *)
Fixpoint strrchr (s : string) (c : ascii) : option nat :=
  match s with
  | EmptyString => None
  | String x rest =>
      match strrchr rest c with
      | Some i => Some (S i)
      | None => if Ascii.eqb x c then Some O else None
      end
  end.

(** [s + n] for [n] within the string. *)
Fixpoint string_from (n : nat) (s : string) : string :=
  match n, s with
  | O, _ => s
  | S n', String _ rest => string_from n' rest
  | S _, EmptyString => EmptyString
  end.

Definition has_extension (file_name ext : string) : bool :=
  match strrchr file_name "."%char with
  | None => false
  | Some O => false
  | Some (S i) => String.eqb (string_from (S (S i)) file_name) ext
  end.

(** The test at the head of [main]: [argc < 2 || !has_extension(argv[1], "tasm")]
    leads to the error exit. *)
Definition arguments_accepted (argv : list string) : bool :=
  match argv with
  | _ :: file_name :: _ => has_extension file_name "tasm"
  | _ => false
  end.

(** [memdump = (argc > 2 && strcmp(argv[2], "-memdump") == 0)] *)
Definition memdump_requested (argv : list string) : bool :=
  match argv with
  | _ :: _ :: flag :: _ => String.eqb flag "-memdump"
  | _ => false
  end.
(** ** Regions, reachability and the example programs *)

Definition in_data (a : N) : Prop := a <= _MEM_END.
Definition in_display (a : N) : Prop := _OUT <= a <= _OUT_END.
Definition in_code (a : N) : Prop := _MAIN <= a <= _END.

(** The states the loop of [run] passes through when started in [m0]. *)
Inductive reachable (m0 : machine) : machine -> Prop :=
| reach_start : reachable m0 m0
| reach_step (m m' : machine) :
    reachable m0 m -> step m = Running m' -> reachable m0 m'.

(** The primitives of the arithmetic and bitwise groups of the enumeration. *)
Definition arith_bitwise (i : INSTRUCTION) : bool :=
  match i with
  | I_AND | I_OR | I_XOR | I_NOT | I_LSHIFT | I_RSHIFT
  | I_ADD | I_SUB | I_MUL | I_DIV => true
  | _ => false
  end.

Definition dquote : string := String (ascii_of_N 34) EmptyString.



(** ** Concrete states and programs *)

(** A machine with the given cells, pointer and scratch, nothing printed. *)
Definition machine_of (cells : list (N * BLOCK)) (p d : DWORD) (t : BYTE) : machine :=
  mkMachine (list_to_map cells) (mkPTR p d t) "".

(** About to execute [WRITE 0x18a88] with the character [A] in the scratch
    and an empty display. *)
Definition write_state : machine :=
  machine_of [(_MAIN, mkBLOCK I_WRITE 101000 0); (_DISP, mkBLOCK I_NONE 101000 0)]
             _MAIN 65 1.

(** The operand in the scratch is one C defines the primitive for: a shift
    count below the width of a [DWORD], a divisor other than zero. *)
Definition defined_for (i : INSTRUCTION) (scratch : DWORD) : Prop :=
  match i with
  | I_LSHIFT | I_RSHIFT => scratch < DWORD_BITS
  | I_DIV => scratch ≠ 0
  | _ => True
  end.

(** About to execute [ADD 0x5] with 3 in the scratch; cell 5 holds the
    character-typed value 7. *)
Definition add_state : machine :=
  machine_of [(_MAIN, mkBLOCK I_ADD 5 0); (5, mkBLOCK I_NONE 7 1)] _MAIN 3 0.


(** About to execute [CALL] with [STK] equal to [stk]. *)
Definition call_state (stk : DWORD) : machine :=
  machine_of [(_MAIN, mkBLOCK I_CALL 201005 0); (_STK, mkBLOCK I_NONE stk 0)] _MAIN 0 0.

(** A routine that calls itself without end. *)
Definition recursion : list source_line :=
  [ mkLine "main:" "" ""; mkLine "call" "main" "" ].

(** Two [OUT] cells in a row, with the text [7] then [A] in the display. *)
Definition out_state : machine :=
  machine_of [(_MAIN, mkBLOCK I_OUT 0 0); (_MAIN + 1, mkBLOCK I_OUT 0 0);
              (_DISP, mkBLOCK I_NONE 101002 0);
              (101000, mkBLOCK I_NONE 7 0); (101001, mkBLOCK I_NONE 65 1)]
             _MAIN 0 0.

(** ** The globals after a lowering *)

(** A cell after [tape[..].ins = i; tape[..].data = a;]: its [dtype] stays. *)
Definition cell (i : INSTRUCTION) (a : DWORD) (b : BLOCK) : BLOCK :=
  mkBLOCK i a (dtype b).

(** The globals after [f] was applied to the cell under the pointer and the
    pointer moved up by one. *)
Definition placed (f : BLOCK -> BLOCK) (m : machine) : machine :=
  with_pos (pos (_ptr m) + 1) (with_tape (poke (pos (_ptr m)) f (tape m)) m).

(** The two-operand mnemonics with the primitive each one lowers to. *)
Definition two_operand_primitive (mnemonic : string) : option INSTRUCTION :=
  if String.eqb mnemonic "mov" then Some I_WRITE
  else if String.eqb mnemonic "cmp" then Some I_CMP
  else if String.eqb mnemonic "and" then Some I_AND
  else if String.eqb mnemonic "or" then Some I_OR
  else if String.eqb mnemonic "xor" then Some I_XOR
  else if String.eqb mnemonic "lsh" then Some I_LSHIFT
  else if String.eqb mnemonic "rsh" then Some I_RSHIFT
  else if String.eqb mnemonic "add" then Some I_ADD
  else if String.eqb mnemonic "sub" then Some I_SUB
  else if String.eqb mnemonic "mul" then Some I_MUL
  else if String.eqb mnemonic "div" then Some I_DIV
  else None.

(** [sub 0x5 0x6] followed by [hlt], and the same with [add]. *)
Definition sub_then_hlt : list source_line :=
  [ mkLine "sub" "0x5" "0x6"; mkLine "hlt" "" "" ].
Definition add_then_hlt : list source_line :=
  [ mkLine "add" "0x5" "0x6"; mkLine "hlt" "" "" ].

(** The assembler at the start of the first line. *)
Definition asm_start : asm_state := (∅, with_pos _MAIN boot).

(** What C5 says of [cmp a b] followed by [jl t], lowered at the pointer of
    [m] and then run from there: [m1] is the state when the compare starts,
    [m2] the state after its two cells, [m3] the state after the [JL]. *)
Definition cmp_then_jl (m : machine) (a b t : DWORD) : Prop :=
  let p := pos (_ptr m) in
  exists m1 m2 m3,
    (load_instruction "cmp" (Some a) (Some b) 0 false false >>
     load_instruction "jl" (Some t) None 0 false false) m = Ok m1 /\
    run 2 (goto p m1) = Running m2 /\
    (data (tape m2 !!! _ZF) = 1 <-> data (tape m1 !!! a) = data (tape m1 !!! b)) /\
    (data (tape m2 !!! _CF) = 1 <-> data (tape m1 !!! a) < data (tape m1 !!! b)) /\
    step m2 = Running m3 /\
    (data (tape m1 !!! a) < data (tape m1 !!! b) -> pos (_ptr m3) = t) /\
    (~ data (tape m1 !!! a) < data (tape m1 !!! b) -> pos (_ptr m3) = p + 3).

(** The assembler at [_MAIN], with the value 5 in the flag cell [ZF] and in
    the cell 7. *)
Definition cmp_zf_state : machine :=
  machine_of [(_ZF, mkBLOCK I_NONE 5 0); (7, mkBLOCK I_NONE 5 0)] _MAIN 0 0.

(** The assembler at [_MAIN], with 3 in cell 5 and 8 in cell 6. *)
Definition cmp_state : machine :=
  machine_of [(5, mkBLOCK I_NONE 3 0); (6, mkBLOCK I_NONE 8 0)] _MAIN 0 0.


(** The assembler at [_MAIN] with nothing on the tape and no label. *)
Definition empty_labels : gmap string DWORD := ∅.

(** Run [recursion] for 999 rounds, look at the state, and execute one more
    round. *)
Definition call_at_low_bound_check : bool :=
  match tasm 999 recursion with
  | Running m =>
      bool_decide (ins (tape m !!! pos (_ptr m)) = I_CALL) &&
      (data (tape m !!! _STK) =? _STACK_END) &&
      match step m with
      | Running m' =>
          (data (tape m' !!! _STACK_END) =? pos (_ptr m) + 1) &&
          (data (tape m' !!! _STK) =? 99999)
      | _ => false
      end
  | _ => false
  end.


(** [not [0x5]]: a one-operand mnemonic with an indirect operand. *)
Definition deref_not : list source_line :=
  [ mkLine "main:" "" ""; mkLine "not" "[0x5]" "" ].

(** [jmp 0x5]: a jump to an address of the data region. *)
Definition jump_out : list source_line :=
  [ mkLine "main:" "" ""; mkLine "jmp" "0x5" "" ].

(** C1 as stated, for one program: no round of the loop changes a cell of
    the code region. *)
Definition code_never_written (lines : list source_line) : Prop :=
  forall m0 m m' c,
    assemble_tasm lines = Ok m0 -> reachable m0 m -> step m = Running m' ->
    in_code c -> tape m' !!! c = tape m !!! c.

(** C2 as stated, for one program: the pointer of every state the loop
    passes through is in the code region. *)
Definition pointer_stays_in_code (lines : list source_line) : Prop :=
  forall m0 m,
    assemble_tasm lines = Ok m0 -> reachable m0 m -> in_code (pos (_ptr m)).

(** About to execute [JUMP 0x5], and a pointer one past the tape. *)
Definition jump_state : machine :=
  machine_of [(_MAIN, mkBLOCK I_JUMP 5 0)] _MAIN 0 0.
Definition past_end_state : machine := machine_of [] (_END + 1) 0 0.

(** The assembler at [_MAIN]; cell 5 holds the pointer value 9. *)
Definition deref_state : machine :=
  machine_of [(5, mkBLOCK I_NONE 9 0)] _MAIN 0 0.

(** ** Definitions for the label table *)

(** The hash map [map] holds exactly the bindings of the finite map [g]. *)
Definition represents (map : list (list (string * N))) (g : gmap string N) : Prop :=
  length map = N.to_nat STACK_SIZE /\ forall key, map_get map key = g !! key.

(** The number of pairs allocated in all chains. *)
Definition pair_count (map : list (list (string * N))) : nat := length (concat map).

(** ** Definitions for the assembler *)

(** The mnemonics [load_instruction] compares against. *)
Definition mnemonics : list string :=
  [ "hlt"; "out"; "ret"; "not"; "jmp"; "call"; "je"; "jne"; "jg"; "jge"; "jl";
    "jle"; "cmp"; "put"; "mov"; "and"; "or"; "xor"; "lsh"; "rsh"; "add"; "sub";
    "mul"; "div" ].

(** The cells of a dereference prologue, when there is one. *)
Definition deref_size (deref : bool) : N := if deref then 2 else 0.

(** By how much [load_instruction] moves the pointer. *)
Definition lowering_size (mnemonic : string) (deref_1 deref_2 : bool) : N :=
  if String.eqb mnemonic "hlt" then 1
  else if String.eqb mnemonic "out" then 1
  else if String.eqb mnemonic "ret" then 1
  else if String.eqb mnemonic "not" then deref_size deref_1 + 1
  else if String.eqb mnemonic "jmp" then deref_size deref_1 + 1
  else if String.eqb mnemonic "call" then deref_size deref_1 + 1
  else if String.eqb mnemonic "je" then deref_size deref_1 + 1
  else if String.eqb mnemonic "jne" then deref_size deref_1 + 1
  else if String.eqb mnemonic "jg" then deref_size deref_1 + 1
  else if String.eqb mnemonic "jge" then deref_size deref_1 + 1
  else if String.eqb mnemonic "jl" then deref_size deref_1 + 1
  else if String.eqb mnemonic "jle" then deref_size deref_1 + 1
  else if String.eqb mnemonic "cmp" then deref_size deref_2 + deref_size deref_1 + 2
  else if String.eqb mnemonic "put" then deref_size deref_2 + deref_size deref_1 + 3
  else if String.eqb mnemonic "mov" then deref_size deref_2 + deref_size deref_1 + 2
  else if String.eqb mnemonic "and" then deref_size deref_2 + deref_size deref_1 + 2
  else if String.eqb mnemonic "or" then deref_size deref_2 + deref_size deref_1 + 2
  else if String.eqb mnemonic "xor" then deref_size deref_2 + deref_size deref_1 + 2
  else if String.eqb mnemonic "lsh" then deref_size deref_2 + deref_size deref_1 + 2
  else if String.eqb mnemonic "rsh" then deref_size deref_2 + deref_size deref_1 + 2
  else if String.eqb mnemonic "add" then deref_size deref_2 + deref_size deref_1 + 2
  else if String.eqb mnemonic "sub" then deref_size deref_2 + deref_size deref_1 + 3
  else if String.eqb mnemonic "mul" then deref_size deref_2 + deref_size deref_1 + 2
  else if String.eqb mnemonic "div" then deref_size deref_2 + deref_size deref_1 + 2
  else 0.

(** What two states of the globals share when the assembler went from
    pointer [lo] to pointer [hi]: the scratch, the output, and every cell
    outside [lo .. hi]. *)
Definition same_outside (lo hi : N) (m m' : machine) : Prop :=
  ptr_data (_ptr m') = ptr_data (_ptr m) /\
  ptr_dtype (_ptr m') = ptr_dtype (_ptr m) /\
  stdout m' = stdout m /\
  forall c, c < lo \/ hi < c -> tape m' !!! c = tape m !!! c.

(** A statement that, when it succeeds, moves the pointer up by [n] and
    writes no cell outside that stretch. *)
Definition emits (a : action) (n : N) : Prop :=
  forall m m', a m = Ok m' ->
    pos (_ptr m) + n < DWORD_MOD ->
    pos (_ptr m') = pos (_ptr m) + n /\
    same_outside (pos (_ptr m)) (pos (_ptr m) + n) m m'.

(** A statement that does nothing at all unless the pointer is on the tape. *)
Definition guarded (a : action) : Prop :=
  forall m m', a m = Ok m' -> m' = m \/ pos (_ptr m) <= _END.

(** What holds of the label table and the globals between two lines. *)
Definition asm_inv (st : asm_state) : Prop :=
  _MAIN <= pos (_ptr st.2) /\ pos (_ptr st.2) <= _END + 7 /\
  (forall key a, st.1 !! key = Some a -> in_code a) /\
  (forall c, c < _MAIN \/ pos (_ptr st.2) < c -> tape st.2 !!! c = zero_block) /\
  ptr_data (_ptr st.2) = 0 /\ ptr_dtype (_ptr st.2) = 0 /\ stdout st.2 = "".

(** A statement that only succeeds with the pointer on the tape. *)
Definition strict (a : action) : Prop :=
  forall m m', a m = Ok m' -> pos (_ptr m) <= _END.

(** The token is neither empty nor of the shapes [0x..] and [[0x..]]: the
    first operand is then looked up in the label table. *)
Definition names_label (first : string) : bool :=
  negb (is_char (char_at first 0) 48 && is_char (char_at first 1) 120) &&
  negb (is_char (char_at first 0) 91 && is_char (char_at first 1) 48 &&
        is_char (char_at first 2) 120 &&
        is_char (char_at first (String.length first - 1)) 93) &&
  Nat.ltb 0 (String.length first).

(** The token ends in a colon: the line defines a label. *)
Definition defines_label (token : string) : bool :=
  negb (Nat.eqb (String.length token) 0) &&
  is_char (char_at token (String.length token - 1)) 58.

(** A loop that jumps to a label defined further down. *)
Definition forward_jump : list source_line :=
  [ mkLine "main:" "" ""; mkLine "jmp" "done" ""; mkLine "done:" "" "";
    mkLine "hlt" "" "" ].

(** The same label twice. *)
Definition twice_main : list source_line :=
  [ mkLine "main:" "" ""; mkLine "hlt" "" ""; mkLine "main:" "" "" ].

(** ** Definitions for the loop of [run] *)

(** The globals after the two assignments of the [I_READ] case. *)
Definition read (addr : N) (m : machine) : machine :=
  with_scratch (data (tape m !!! addr)) (dtype (tape m !!! addr)) m.

(** The globals after the assignments of the [I_WRITE] case. *)
Definition written (addr : N) (m : machine) : machine :=
  let m1 := with_tape (poke addr (set_data (ptr_data (_ptr m))) (tape m)) m in
  let m2 := with_tape (poke addr (set_dtype (ptr_dtype (_ptr m))) (tape m1)) m1 in
  if (data (tape m2 !!! _DISP) <=? addr) && (addr <=? _OUT_END)
  then update_data _DISP (fun _ => wrap (addr + 1)) m2
  else m2.

(** The [data] a [WRITE] of [v] leaves in the cell [dst]: [v] itself, unless
    the cell is [DISP] and [v] is at most its address; then the cursor test
    that follows the store sees the new value and moves [DISP] on behind the
    cell. *)
Definition stored (dst v : N) : N :=
  if (dst =? _DISP) && (v <=? dst) then wrap (dst + 1) else v.

(** About to execute two [NOT 0x5] in a row; cell 5 holds 9. *)
Definition not_state : machine :=
  machine_of [(_MAIN, mkBLOCK I_NOT 5 0); (_MAIN + 1, mkBLOCK I_NOT 5 0);
              (5, mkBLOCK I_NONE 9 0)] _MAIN 0 0.

(** About to execute a [CALL] of a routine that is a single [RET]. *)
Definition call_ret_state : machine :=
  machine_of [(_MAIN, mkBLOCK I_CALL 201005 0); (201005, mkBLOCK I_RET 0 0);
              (_STK, mkBLOCK I_NONE _STACK 0)] _MAIN 0 0.

(** About to execute a [RET] with nothing on the stack. *)
Definition ret_state : machine :=
  machine_of [(_MAIN, mkBLOCK I_RET 0 0); (_STK, mkBLOCK I_NONE _STACK 0);
              (_OUT, mkBLOCK I_NONE 201007 0)] _MAIN 0 0.

(** The address an operand stands for at run time: the address written in
    the source, or, for a bracketed operand, the number stored there. *)
Definition effective (deref : bool) (t : gmap N BLOCK) (a : N) : N :=
  if deref then data (t !!! a) else a.

(** The rounds the prologues of a two-operand lowering take. *)
Definition prologue_rounds (deref_1 deref_2 : bool) : nat :=
  ((if deref_2 then 2 else 0) + (if deref_1 then 2 else 0))%nat.

(** The assembler at [_MAIN]; cell 16 holds 42 and cell 17 points to it. *)
Definition pointer_state : machine :=
  machine_of [(16, mkBLOCK I_NONE 42 0); (17, mkBLOCK I_NONE 16 0)] _MAIN 0 0.

(** The conditional jump mnemonics with their primitives. *)
Definition jump_primitive (mnemonic : string) : option INSTRUCTION :=
  if String.eqb mnemonic "je" then Some I_JE
  else if String.eqb mnemonic "jne" then Some I_JNE
  else if String.eqb mnemonic "jg" then Some I_JG
  else if String.eqb mnemonic "jge" then Some I_JGE
  else if String.eqb mnemonic "jl" then Some I_JL
  else if String.eqb mnemonic "jle" then Some I_JLE
  else None.

(** The comparison of the two compared values each jump stands for. *)
Definition jump_taken (i : INSTRUCTION) (va vb : N) : bool :=
  match i with
  | I_JE => va =? vb
  | I_JNE => negb (va =? vb)
  | I_JG => vb <? va
  | I_JGE => vb <=? va
  | I_JL => va <? vb
  | I_JLE => va <=? vb
  | _ => false
  end.
(** ** Elementary facts about blocks and the tape *)

Lemma poke_same (i : N) (f : BLOCK -> BLOCK) (t : gmap N BLOCK) :
  poke i f t !!! i = f (t !!! i).
Proof. unfold poke. apply lookup_total_insert_eq. Qed.

Lemma poke_other (i j : N) (f : BLOCK -> BLOCK) (t : gmap N BLOCK) :
  i ≠ j -> poke i f t !!! j = t !!! j.
Proof. intros Hne. unfold poke. by apply lookup_total_insert_ne. Qed.

Lemma poke_lookup (i j : N) (f : BLOCK -> BLOCK) (t : gmap N BLOCK) :
  poke i f t !!! j = if decide (i = j) then f (t !!! j) else t !!! j.
Proof.
  case_decide as Hij; [subst; apply poke_same | by apply poke_other].
Qed.

Lemma wrap_small (x : N) : x < DWORD_MOD -> wrap x = x.
Proof. intros Hx. unfold wrap. by apply N.mod_small. Qed.

Lemma ltb_false_le (a b : N) : b <= a -> (a <? b) = false.
Proof. intros H. by apply N.ltb_ge. Qed.

Lemma ltb_true_lt (a b : N) : a < b -> (a <? b) = true.
Proof. intros H. by apply N.ltb_lt. Qed.

(** The projections of the state after the elementary moves. *)
Lemma tape_next m : tape (next m) = tape m.
Proof. reflexivity. Qed.
Lemma tape_goto a m : tape (goto a m) = tape m.
Proof. reflexivity. Qed.
Lemma pos_next m : pos (_ptr (next m)) = wrap (pos (_ptr m) + 1).
Proof. reflexivity. Qed.
Lemma pos_goto a m : pos (_ptr (goto a m)) = a.
Proof. reflexivity. Qed.
Lemma tape_update_data a f m :
  tape (update_data a f m) = poke a (fun b => set_data (f (data b)) b) (tape m).
Proof. reflexivity. Qed.
Lemma ptr_update_data a f m : _ptr (update_data a f m) = _ptr m.
Proof. reflexivity. Qed.
Lemma tape_with_tape t m : tape (with_tape t m) = t.
Proof. reflexivity. Qed.
Lemma ptr_with_tape t m : _ptr (with_tape t m) = _ptr m.
Proof. reflexivity. Qed.
Lemma tape_with_scratch d t m : tape (with_scratch d t m) = tape m.
Proof. reflexivity. Qed.
Lemma tape_output m : tape (output m) = tape m.
Proof. reflexivity. Qed.

Create Rewrite HintDb machine.
#[local] Hint Rewrite tape_next tape_goto pos_next pos_goto tape_update_data
  ptr_update_data tape_with_tape ptr_with_tape tape_with_scratch tape_output
  : machine.

(** The two bounds checks at the head of the loop pass. *)
Ltac fetch Hp Ha :=
  unfold step;
  rewrite (ltb_false_le _ _ Hp), (ltb_false_le _ _ Ha).

(** The cells a round of the loop can write: its operand address, the flag
    and cursor registers, and the stack slot [STK] names. *)
Lemma step_frame (m m' : machine) (c : N) :
  step m = Running m' ->
  c ≠ data (tape m !!! pos (_ptr m)) ->
  c ≠ data (tape m !!! _STK) ->
  c ≠ _ZF -> c ≠ _CF -> c ≠ _DISP -> c ≠ _STK ->
  tape m' !!! c = tape m !!! c.
Proof.
  intros Hstep Haddr Hslot Hzf Hcf Hdisp Hstk. revert Hstep. unfold step.
  destruct (_END <? pos (_ptr m)); [discriminate|].
  destruct (_END <? data (tape m !!! pos (_ptr m))); [discriminate|].
  destruct (ins (tape m !!! pos (_ptr m)));
    repeat match goal with
    | |- context [if ?b then _ else _] => destruct b
    end;
    intros [= <-]; autorewrite with machine;
    rewrite ?poke_other by congruence; reflexivity.
Qed.

(** No round of the loop writes an [ins] field. *)
Lemma step_keeps_ins (m m' : machine) (c : N) :
  step m = Running m' -> ins (tape m' !!! c) = ins (tape m !!! c).
Proof.
  unfold step.
  destruct (_END <? pos (_ptr m)); [discriminate|].
  destruct (_END <? data (tape m !!! pos (_ptr m))); [discriminate|].
  destruct (ins (tape m !!! pos (_ptr m)));
    repeat match goal with
    | |- context [if ?b then _ else _] => destruct b
    end;
    intros [= <-]; autorewrite with machine;
    rewrite ?poke_lookup; repeat case_decide; reflexivity.
Qed.

(** ** The display cursor *)

(** C6.  A [WRITE] whose destination [addr] lies in the display region
    executes, leaves [DISP] alone when [addr] is below it, sets [DISP] to
    [addr + 1] when [addr] is at or above it, and in both cases ends with
    [DISP] above [addr]. *)
Theorem write_moves_display_cursor (m : machine) :
  let p := pos (_ptr m) in
  let addr := data (tape m !!! p) in
  let DISP := data (tape m !!! _DISP) in
  p <= _END ->
  ins (tape m !!! p) = I_WRITE ->
  in_display addr ->
  exists m', step m = Running m' /\
    (addr < DISP -> data (tape m' !!! _DISP) = DISP) /\
    (DISP <= addr -> data (tape m' !!! _DISP) = addr + 1) /\
    addr < data (tape m' !!! _DISP).
Proof.
  intros p addr DISP. subst p addr DISP. intros Hp Hins [Hlo Hhi].
  assert (Ha : data (tape m !!! pos (_ptr m)) <= _END)
    by (unfold _OUT_END, _END in *; lia).
  assert (Hne : data (tape m !!! pos (_ptr m)) ≠ _DISP)
    by (unfold _OUT, _DISP in *; lia).
  fetch Hp Ha. rewrite Hins.
  eexists. split; [reflexivity|].
  autorewrite with machine.
  rewrite !(poke_other _ _DISP) by exact Hne.
  rewrite (proj2 (N.leb_le _ _OUT_END) Hhi), andb_true_r.
  destruct (_ <=? _) eqn:Hcmp.
  - apply N.leb_le in Hcmp. autorewrite with machine. rewrite poke_same. simpl.
    rewrite wrap_small by (unfold DWORD_MOD, _OUT_END in *; lia).
    repeat split; intros; lia.
  - apply N.leb_gt in Hcmp. autorewrite with machine.
    rewrite !(poke_other _ _DISP) by exact Hne.
    repeat split; intros; lia.
Qed.

Lemma write_moves_display_cursor_witness :
  exists m', step write_state = Running m' /\ 101000 < data (tape m' !!! _DISP).
Proof.
  destruct (write_moves_display_cursor write_state) as (m' & Hstep & _ & _ & Hlt).
  - vm_compute. discriminate.
  - reflexivity.
  - split; vm_compute; discriminate.
  - exists m'. split; [exact Hstep | exact Hlt].
Defined.

(** ** The arithmetic and bitwise primitives *)

(** C9.  An arithmetic or bitwise primitive with target [addr] executes and
    changes nothing but the [data] field of [tape[addr]]: the [ins] and
    [dtype] fields of that cell and every other cell are as before.  A
    [WRITE], in contrast, also sets the [dtype] of its destination, to the
    one in the scratch. *)
Theorem arith_changes_only_data (m : machine) :
  let p := pos (_ptr m) in
  let addr := data (tape m !!! p) in
  let i := ins (tape m !!! p) in
  p <= _END -> addr <= _END ->
  (arith_bitwise i = true -> defined_for i (ptr_data (_ptr m)) ->
   exists m', step m = Running m' /\
     ins (tape m' !!! addr) = ins (tape m !!! addr) /\
     dtype (tape m' !!! addr) = dtype (tape m !!! addr) /\
     forall c, c ≠ addr -> tape m' !!! c = tape m !!! c) /\
  (i = I_WRITE ->
   exists m', step m = Running m' /\
     dtype (tape m' !!! addr) = ptr_dtype (_ptr m)).
Proof.
  intros p addr i. subst p addr i. intros Hp Ha. split.
  - intros Hop Hdef. fetch Hp Ha.
    destruct (ins (tape m !!! pos (_ptr m))); try discriminate Hop;
      simpl in Hdef;
      try rewrite (ltb_true_lt _ _ Hdef);
      try rewrite (proj2 (N.eqb_neq _ _) Hdef);
      (eexists; split; [reflexivity|]);
      autorewrite with machine; rewrite poke_same; simpl;
      (repeat split; [intros c Hc; by rewrite poke_other]).
  - intros Hw. fetch Hp Ha. rewrite Hw.
    eexists; split; [reflexivity|].
    autorewrite with machine.
    destruct (_ && _); autorewrite with machine;
      rewrite ?poke_lookup; repeat case_decide;
      first [reflexivity | congruence].
Qed.

Lemma arith_changes_only_data_witness :
  exists m', step add_state = Running m' /\
    dtype (tape m' !!! 5) = 1 /\ tape m' !!! _MAIN = tape add_state !!! _MAIN.
Proof.
  destruct (arith_changes_only_data add_state) as [Harith _].
  - vm_compute. discriminate.
  - vm_compute. discriminate.
  - destruct Harith as (m' & Hstep & _ & Hdtype & Hothers).
    + reflexivity.
    + exact I.
    + exists m'. split; [exact Hstep|]. split; [exact Hdtype|].
      apply Hothers. vm_compute. discriminate.
Defined.

(** ** The flags and the conditional jumps *)



(** ** Calls and the stack *)

(** The run of [recursion] for 999 rounds, checked by evaluation: the machine
    is about to execute a [CALL] with [STK] at 100000, and that [CALL] goes
    through, writing the slot 100000 and leaving 99999 in [STK]. *)
Lemma recursion_999_check : call_at_low_bound_check = true.
Proof. vm_compute. reflexivity. Qed.

(** C4, as stated, fails: after 999 nested calls [STK] is at the low bound
    100000 of the stack region, and the next [CALL] does not fault; it pushes
    into the slot 100000 and leaves [STK] at 99999. *)
Lemma call_at_low_bound_counterexample :
  exists m m',
    tasm 999 recursion = Running m /\
    ins (tape m !!! pos (_ptr m)) = I_CALL /\
    data (tape m !!! _STK) = _STACK_END /\
    step m = Running m' /\
    data (tape m' !!! _STACK_END) = pos (_ptr m) + 1 /\
    data (tape m' !!! _STK) = 99999.
Proof.
  pose proof recursion_999_check as Hcheck. unfold call_at_low_bound_check in Hcheck.
  destruct (tasm 999 recursion) as [m| | |] eqn:Hrun; try discriminate Hcheck.
  destruct (step m) as [m'| | |] eqn:Hstep;
    try (by rewrite !andb_false_r in Hcheck).
  apply andb_prop in Hcheck as [Hcheck Hafter].
  apply andb_prop in Hcheck as [Hins Hstk].
  apply andb_prop in Hafter as [Hslot Hstk'].
  apply bool_decide_eq_true in Hins.
  apply N.eqb_eq in Hstk, Hslot, Hstk'.
  exists m, m'. split; [reflexivity|]. repeat split; assumption.
Qed.

(** C4, amended.  A [CALL] faults with a stack overflow when [STK] is below
    the low bound 100000 of the stack region.  With [STK] at 100000 or above
    (and on the tape) it stores the address of the next cell in
    [tape[STK].data], lowers [STK] by one and sets the pointer to its
    operand. *)
Theorem call_pushes_or_overflows (m : machine) :
  let p := pos (_ptr m) in
  let addr := data (tape m !!! p) in
  let STK := data (tape m !!! _STK) in
  p <= _END -> addr <= _END ->
  ins (tape m !!! p) = I_CALL ->
  (STK < _STACK_END -> step m = Fault StackOverflow) /\
  (_STACK_END <= STK <= _END ->
   exists m', step m = Running m' /\
     data (tape m' !!! STK) = p + 1 /\
     data (tape m' !!! _STK) = STK - 1 /\
     pos (_ptr m') = addr /\
     forall c, c ≠ STK -> c ≠ _STK -> tape m' !!! c = tape m !!! c).
Proof.
  intros p addr STK. subst p addr STK. intros Hp Ha Hi. split.
  - intros Hlow. fetch Hp Ha. by rewrite Hi, (ltb_true_lt _ _ Hlow).
  - intros [Hlo Hhi]. fetch Hp Ha.
    rewrite Hi, (ltb_false_le _ _ Hlo), (ltb_false_le _ _ Hhi).
    assert (Hne : data (tape m !!! _STK) ≠ _STK)
      by (unfold _STACK_END, _STK in *; lia).
    eexists; split; [reflexivity|].
    autorewrite with machine.
    repeat split.
    + rewrite poke_other by congruence. rewrite poke_same. simpl.
      apply wrap_small. unfold DWORD_MOD, _END in *. lia.
    + rewrite poke_same. simpl. rewrite poke_other by exact Hne.
      unfold wrap. unfold DWORD_MOD, _END, _STACK_END in *.
      replace (data (tape m !!! _STK) + 4294967296 - 1)
        with (data (tape m !!! _STK) - 1 + 1 * 4294967296) by lia.
      rewrite N.Div0.mod_add. apply N.mod_small. lia.
    + intros c Hc1 Hc2. by rewrite !poke_other by congruence.
Qed.

Lemma call_pushes_or_overflows_witness :
  step (call_state 99999) = Fault StackOverflow /\
  exists m', step (call_state _STACK_END) = Running m' /\
    data (tape m' !!! _STK) = 99999.
Proof.
  split.
  - apply (call_pushes_or_overflows (call_state 99999));
      [vm_compute; discriminate | vm_compute; discriminate | reflexivity
      | vm_compute; reflexivity].
  - destruct (call_pushes_or_overflows (call_state _STACK_END))
      as [_ Hpush]; [vm_compute; discriminate | vm_compute; discriminate
                    | reflexivity |].
    destruct Hpush as (m' & Hstep & _ & Hstk & _).
    + split; vm_compute; discriminate.
    + exists m'. split; [exact Hstep | exact Hstk].
Defined.

(** ** The display flush *)

Lemma string_app_assoc (a b c : string) : ((a ++ b) ++ c = a ++ (b ++ c))%string.
Proof.
  induction a as [|x a IH]; [reflexivity|].
  change (String x ((a ++ b) ++ c) = String x (a ++ (b ++ c)))%string.
  by rewrite IH.
Qed.

Lemma string_app_nil_r (a : string) : (a ++ "")%string = a.
Proof.
  induction a as [|x a IH]; [reflexivity|].
  change (String x (a ++ "") = String x a)%string. by rewrite IH.
Qed.

(** The loop only appends to the text printed before it. *)
Lemma output_loop_appends (fuel : nat) (t : gmap N BLOCK) (cursor : DWORD)
    (is_escaped : bool) (out : string) :
  output_loop fuel t cursor is_escaped out
  = (out ++ output_loop fuel t cursor is_escaped "")%string.
Proof.
  revert cursor is_escaped out.
  induction fuel as [|fuel IH]; intros cursor is_escaped out; simpl.
  - by rewrite string_app_nil_r.
  - repeat match goal with
      | |- context [if ?b then _ else _] => destruct b
      end;
      rewrite ?string_app_nil_r; try reflexivity;
      unfold putchar;
      rewrite IH; symmetry; rewrite IH; symmetry;
      by rewrite ?string_app_assoc.
Qed.

Lemma stdout_output (m : machine) :
  stdout (output m) = (stdout m ++ display_text (tape m))%string.
Proof.
  change (stdout (output m))
    with (output_loop display_fuel (tape m) _OUT false (stdout m)).
  apply output_loop_appends.
Qed.

Lemma step_out (m : machine) :
  pos (_ptr m) <= _END ->
  ins (tape m !!! pos (_ptr m)) = I_OUT ->
  data (tape m !!! pos (_ptr m)) <= _END ->
  step m = Running (output m).
Proof. intros Hp Hi Ha. fetch Hp Ha. by rewrite Hi. Qed.

(** C8.  An [OUT] changes no cell of the tape (so neither the display region
    nor [DISP]); two [OUT]s in a row therefore print the same text twice. *)
Theorem out_twice_same_text (m : machine) :
  let p := pos (_ptr m) in
  p + 1 <= _END ->
  ins (tape m !!! p) = I_OUT -> data (tape m !!! p) <= _END ->
  ins (tape m !!! (p + 1)) = I_OUT -> data (tape m !!! (p + 1)) <= _END ->
  exists m1 m2,
    step m = Running m1 /\ step m1 = Running m2 /\
    tape m1 = tape m /\ tape m2 = tape m /\
    stdout m1 = (stdout m ++ display_text (tape m))%string /\
    stdout m2 = (stdout m1 ++ display_text (tape m))%string.
Proof.
  intros p. subst p. intros Hp Hi1 Ha1 Hi2 Ha2.
  assert (Hp0 : pos (_ptr m) <= _END) by lia.
  assert (Hpos : pos (_ptr (output m)) = pos (_ptr m) + 1).
  { change (pos (_ptr (output m))) with (wrap (pos (_ptr m) + 1)).
    apply wrap_small. unfold DWORD_MOD, _END in *. lia. }
  exists (output m), (output (output m)).
  split; [by apply step_out|].
  split; [apply step_out; by rewrite ?tape_output, Hpos|].
  repeat split.
  - apply stdout_output.
  - by rewrite stdout_output, tape_output.
Qed.

Lemma out_twice_same_text_witness :
  exists m1 m2,
    step out_state = Running m1 /\ step m1 = Running m2 /\
    tape m2 = tape out_state /\
    stdout m2 = ((stdout out_state ++ display_text (tape out_state))
                   ++ display_text (tape out_state))%string.
Proof.
  destruct (out_twice_same_text out_state)
    as (m1 & m2 & H1 & H2 & _ & Ht & Hs1 & Hs2);
    [vm_compute; discriminate | reflexivity | vm_compute; discriminate
    | reflexivity | vm_compute; discriminate |].
  exists m1, m2. rewrite <- Hs1. auto.
Defined.

Example out_state_prints : display_text (tape out_state) = "7A".
Proof. vm_compute. reflexivity. Qed.

(** ** The lowering of single instructions *)

Lemma poke_poke (i : N) (f g : BLOCK -> BLOCK) (t : gmap N BLOCK) :
  poke i g (poke i f t) = poke i (fun b => g (f b)) t.
Proof.
  unfold poke. rewrite lookup_total_insert_eq. apply insert_insert_eq.
Qed.

Lemma andthen_ok (a b : action) (m m1 : machine) :
  a m = Ok m1 -> (a >> b) m = b m1.
Proof. intros H. unfold andthen. by rewrite H. Qed.

Lemma store_ok (f : BLOCK -> BLOCK) (m : machine) :
  pos (_ptr m) <= _END ->
  store f m = Ok (with_tape (poke (pos (_ptr m)) f (tape m)) m).
Proof. intros H. unfold store. by rewrite (proj2 (N.leb_le _ _) H). Qed.

Lemma pos_placed f m : pos (_ptr (placed f m)) = pos (_ptr m) + 1.
Proof. reflexivity. Qed.

Lemma tape_placed f m : tape (placed f m) = poke (pos (_ptr m)) f (tape m).
Proof. reflexivity. Qed.

Lemma stdout_placed f m : stdout (placed f m) = stdout m.
Proof. reflexivity. Qed.

Lemma advance_after_store (f : BLOCK -> BLOCK) (m : machine) :
  pos (_ptr m) <= _END ->
  advance (with_tape (poke (pos (_ptr m)) f (tape m)) m) = Ok (placed f m).
Proof.
  intros H. unfold advance, placed. simpl.
  rewrite wrap_small by (unfold DWORD_MOD, _END in *; lia). reflexivity.
Qed.

(** A second store to the cell under the pointer. *)
Lemma store_twice (f g : BLOCK -> BLOCK) (m : machine) :
  pos (_ptr m) <= _END ->
  store g (with_tape (poke (pos (_ptr m)) f (tape m)) m)
  = Ok (with_tape (poke (pos (_ptr m)) (fun b => g (f b)) (tape m)) m).
Proof.
  intros H. rewrite store_ok by exact H.
  cbn [with_tape tape _ptr pos]. by rewrite poke_poke.
Qed.

(** An instruction cell goes to the tape and the pointer moves up. *)
Lemma emit_ok (i : INSTRUCTION) (a : DWORD) (m : machine) :
  pos (_ptr m) <= _END ->
  emit i (Some a) m = Ok (placed (cell i a) m).
Proof.
  intros H. unfold emit, store_ins, store_operand, store_data.
  rewrite (andthen_ok _ _ _ _ (store_ok _ m H)).
  rewrite (andthen_ok _ _ _ _ (store_twice (set_ins i) (set_data a) m H)).
  exact (advance_after_store (cell i a) m H).
Qed.

(** The two cells of a two-operand mnemonic with direct operands. *)
Lemma load_binary_direct (i : INSTRUCTION) (a1 a2 : DWORD) (m : machine) :
  pos (_ptr m) + 1 <= _END ->
  load_binary false false i (Some a1) (Some a2) m
  = Ok (placed (cell i a1) (placed (cell I_READ a2) m)).
Proof.
  intros H. unfold load_binary, when, skip.
  unfold andthen at 1. simpl. unfold andthen at 1. simpl.
  rewrite (andthen_ok _ _ _ (placed (cell I_READ a2) m)) by (apply emit_ok; lia).
  apply emit_ok. rewrite pos_placed. lia.
Qed.

(** The one cell of a one-operand mnemonic with a direct operand. *)
Lemma load_unary_direct (i : INSTRUCTION) (a1 : DWORD) (m : machine) :
  pos (_ptr m) <= _END ->
  load_unary false i (Some a1) m = Ok (placed (cell i a1) m).
Proof.
  intros H. unfold load_unary, when, skip. unfold andthen at 1. simpl.
  by apply emit_ok.
Qed.

(** The three cells of a [put] with direct operands. *)
Lemma load_put_direct (a1 a2 : DWORD) (data_type : BYTE) (m : machine) :
  pos (_ptr m) + 2 <= _END ->
  load_instruction "put" (Some a1) (Some a2) data_type false false m
  = Ok (placed (cell I_WRITE a1)
         (placed (cell I_READ (pos (_ptr m)))
           (placed (fun _ => mkBLOCK I_NONE a2 data_type) m))).
Proof.
  intros H. assert (H0 : pos (_ptr m) <= _END) by lia.
  change (load_instruction "put" (Some a1) (Some a2) data_type false false m)
    with ((store_ins I_NONE >> store_data a2 >> store_dtype data_type >> advance >>
           store_ins I_READ >>
           (fun m => store_data (wrap (pos (_ptr m) + DWORD_MOD - 1)) m) >>
           advance >> emit I_WRITE (Some a1)) m).
  unfold store_ins, store_data, store_dtype.
  rewrite (andthen_ok _ _ _ _ (store_ok _ m H0)).
  rewrite (andthen_ok _ _ _ _ (store_twice (set_ins I_NONE) (set_data a2) m H0)).
  rewrite (andthen_ok _ _ _ _
             (store_twice (fun b => set_data a2 (set_ins I_NONE b))
                          (set_dtype data_type) m H0)).
  rewrite (andthen_ok _ _ _ (placed (fun _ => mkBLOCK I_NONE a2 data_type) m))
    by exact (advance_after_store _ m H0).
  set (m1 := placed (fun _ => mkBLOCK I_NONE a2 data_type) m).
  assert (H1 : pos (_ptr m1) <= _END) by (unfold m1; rewrite pos_placed; lia).
  assert (Hback : wrap (pos (_ptr m1) + DWORD_MOD - 1) = pos (_ptr m)).
  { unfold m1. rewrite pos_placed.
    replace (pos (_ptr m) + 1 + DWORD_MOD - 1)
      with (pos (_ptr m) + 1 * DWORD_MOD) by lia.
    unfold wrap. rewrite N.Div0.mod_add. apply N.mod_small.
    unfold DWORD_MOD, _END in *. lia. }
  rewrite (andthen_ok _ _ _ _ (store_ok _ m1 H1)).
  rewrite (andthen_ok _ _ _
             (with_tape (poke (pos (_ptr m1)) (cell I_READ (pos (_ptr m))) (tape m1)) m1)).
  - rewrite (andthen_ok _ _ _ _ (advance_after_store _ m1 H1)).
    apply emit_ok. rewrite pos_placed. unfold m1. rewrite pos_placed. lia.
  - change (store (set_data (wrap (pos (_ptr m1) + DWORD_MOD - 1)))
              (with_tape (poke (pos (_ptr m1)) (set_ins I_READ) (tape m1)) m1)
            = Ok (with_tape (poke (pos (_ptr m1)) (cell I_READ (pos (_ptr m)))
                                  (tape m1)) m1)).
    rewrite Hback. exact (store_twice (set_ins I_READ) (set_data (pos (_ptr m))) m1 H1).
Qed.

(** Every two-operand mnemonic other than [sub], with direct operands, puts
    a [READ] of the second operand and its primitive on the first operand in
    two cells and leaves the pointer right behind them. *)
Lemma two_operand_lowering (mnemonic : string) (i : INSTRUCTION)
    (a1 a2 : DWORD) (data_type : BYTE) (m : machine) :
  two_operand_primitive mnemonic = Some i ->
  mnemonic ≠ "sub" ->
  pos (_ptr m) + 1 <= _END ->
  load_instruction mnemonic (Some a1) (Some a2) data_type false false m
  = Ok (placed (cell i a1) (placed (cell I_READ a2) m)).
Proof.
  intros Hprim Hsub Hfit.
  unfold two_operand_primitive in Hprim.
  repeat match type of Hprim with
    | (if String.eqb mnemonic ?s then _ else _) = _ =>
        destruct (String.eqb mnemonic s) eqn:Heq;
        [ apply String.eqb_eq in Heq; subst mnemonic;
          injection Hprim as <-;
          first [ congruence | by apply load_binary_direct ]
        | clear Heq ]
    end.
  discriminate Hprim.
Qed.

(** [sub] does the same and then moves the pointer up once more. *)
Lemma sub_lowering (a1 a2 : DWORD) (data_type : BYTE) (m : machine) :
  pos (_ptr m) + 1 <= _END ->
  load_instruction "sub" (Some a1) (Some a2) data_type false false m
  = Ok (with_pos (pos (_ptr m) + 3)
          (placed (cell I_SUB a1) (placed (cell I_READ a2) m))).
Proof.
  intros Hfit.
  change (load_instruction "sub" (Some a1) (Some a2) data_type false false)
    with (load_binary false false I_SUB (Some a1) (Some a2) >> advance).
  rewrite (andthen_ok _ _ _ _ (load_binary_direct _ _ _ _ Hfit)).
  unfold advance. rewrite !pos_placed.
  rewrite wrap_small by (unfold DWORD_MOD, _END in *; lia).
  do 2 f_equal. lia.
Qed.

(** C3 at [sub 0x5 0x6]: the pointer moves up by three, not two.  The
    [READ] and the [SUB] are in the first two cells, the third cell is left
    as it was (all zero), and the [hlt] of the next line lands in the fourth.
    With [add] in place of [sub] the [hlt] is in the third cell. *)
Theorem sub_lowering_skips_a_cell :
  exists m_sub m_add,
    assemble_lines sub_then_hlt asm_start = Ok (∅, m_sub) /\
    assemble_lines add_then_hlt asm_start = Ok (∅, m_add) /\
    tape m_sub !!! _MAIN = mkBLOCK I_READ 6 0 /\
    tape m_sub !!! (_MAIN + 1) = mkBLOCK I_SUB 5 0 /\
    tape m_sub !!! (_MAIN + 2) = zero_block /\
    tape m_sub !!! (_MAIN + 3) = mkBLOCK I_HALT 0 0 /\
    pos (_ptr m_sub) = _MAIN + 4 /\
    tape m_add !!! _MAIN = mkBLOCK I_READ 6 0 /\
    tape m_add !!! (_MAIN + 1) = mkBLOCK I_ADD 5 0 /\
    tape m_add !!! (_MAIN + 2) = mkBLOCK I_HALT 0 0 /\
    pos (_ptr m_add) = _MAIN + 3.
Proof.
  eexists. eexists.
  split; [vm_compute; reflexivity|].
  split; [vm_compute; reflexivity|].
  repeat split; vm_compute; reflexivity.
Qed.

(** ** Compare and branch *)

Lemma run_step (fuel : nat) (m : machine) :
  run (S fuel) m = match step m with Running m' => run fuel m' | o => o end.
Proof. reflexivity. Qed.

(** The head of the loop when the cell under the pointer is known. *)
Ltac exec Hp Hins Hdata Ha :=
  unfold step; rewrite ?Hdata;
  rewrite (ltb_false_le _ _ Hp), (ltb_false_le _ _ Ha), Hins.

Ltac unfold_bounds :=
  unfold in_data, in_display, in_code, _MEM_END, _STACK_END, _STACK, _OUT,
    _OUT_END, _MAIN, _END, _ZF, _CF, _DISP, _STK, DWORD_MOD in *.

Lemma flag_is_1 (b : bool) : flag b = 1 <-> b = true.
Proof. destruct b; simpl; split; intros H; try reflexivity; discriminate. Qed.

(** C5, as stated, fails for [a = 1]: comparing the flag cell [ZF], which
    holds 5, with a cell that holds 5 leaves [CF] at 1, because [ZF] is
    overwritten with 1 before [CF] is computed from it; the [jl] branches. *)
Lemma cmp_on_flag_cell_counterexample :
  in_data 1 /\ in_data 7 /\ ~ cmp_then_jl cmp_zf_state 1 7 201010.
Proof.
  split; [vm_compute; discriminate|]. split; [vm_compute; discriminate|].
  intros (m1 & m2 & m3 & Hasm & Hrun & _ & [Hcf _] & _).
  vm_compute in Hasm. injection Hasm as <-.
  vm_compute in Hrun. injection Hrun as <-.
  assert (Hlt : (5 : N) < 5) by (apply Hcf; vm_compute; reflexivity).
  vm_compute in Hlt. discriminate Hlt.
Qed.

(** C5, amended.  For data addresses [a] and [b], [a] other than the flag
    cell [ZF] itself: the lowering of [cmp a b] leaves 1 in [ZF] exactly when
    [tape[a].data = tape[b].data] and 1 in [CF] exactly when
    [tape[a].data < tape[b].data] (as unsigned numbers, read when the compare
    starts), and a [jl t] right behind it goes to [t] in the second case and
    to the next cell otherwise. *)
Theorem cmp_sets_flags_jl_branches (m : machine) (a b t : DWORD) :
  _MAIN <= pos (_ptr m) -> pos (_ptr m) + 2 <= _END ->
  in_data a -> in_data b -> a ≠ _ZF -> t <= _END ->
  cmp_then_jl m a b t.
Proof.
  intros Hlo Hfit Hina Hinb Hzf Ht.
  set (p := pos (_ptr m)) in *.
  set (m1 := placed (cell I_JL t) (placed (cell I_CMP a) (placed (cell I_READ b) m))).
  assert (Hasm :
    (load_instruction "cmp" (Some a) (Some b) 0 false false >>
     load_instruction "jl" (Some t) None 0 false false) m = Ok m1).
  { rewrite (andthen_ok _ _ _ (placed (cell I_CMP a) (placed (cell I_READ b) m))).
    - change (load_instruction "jl" (Some t) None 0 false false)
        with (load_unary false I_JL (Some t)).
      apply load_unary_direct. rewrite !pos_placed. fold p. lia.
    - apply two_operand_lowering; [reflexivity | discriminate | fold p; lia]. }
  (* the cells of the lowering and the operands on the tape of [m1] *)
  assert (Htape : tape m1
    = poke (p + 1 + 1) (cell I_JL t) (poke (p + 1) (cell I_CMP a)
        (poke p (cell I_READ b) (tape m)))) by reflexivity.
  assert (H0 : tape m1 !!! p = cell I_READ b (tape m !!! p)).
  { rewrite Htape, !poke_other by lia. apply poke_same. }
  assert (H1 : tape m1 !!! (p + 1) = cell I_CMP a (tape m !!! (p + 1))).
  { rewrite Htape, poke_other by lia. rewrite poke_same.
    by rewrite poke_other by lia. }
  assert (H2 : tape m1 !!! (p + 1 + 1) = cell I_JL t (tape m !!! (p + 1 + 1))).
  { rewrite Htape, poke_same. by rewrite !poke_other by lia. }
  set (va := data (tape m1 !!! a)). set (vb := data (tape m1 !!! b)).
  (* the READ *)
  set (s0 := goto p m1).
  set (s1 := next (with_scratch vb (dtype (tape m1 !!! b)) s0)).
  assert (Hs1 : step s0 = Running s1).
  { unfold step. change (pos (_ptr s0)) with p. change (tape s0) with (tape m1).
    rewrite H0. simpl.
    rewrite (ltb_false_le _ p), (ltb_false_le _ b) by (unfold_bounds; lia).
    reflexivity. }
  assert (Hp1 : pos (_ptr s1) = p + 1).
  { unfold s1. rewrite pos_next. apply wrap_small. unfold_bounds. simpl. lia. }
  (* the CMP *)
  set (s2 := next (update_data _CF (fun _ => flag (va <? vb))
                    (update_data _ZF (fun _ => flag (va =? vb)) s1))).
  assert (Hs2 : step s1 = Running s2).
  { unfold step. rewrite Hp1. change (tape s1) with (tape m1).
    rewrite H1. simpl.
    rewrite (ltb_false_le _ (p + 1)), (ltb_false_le _ a) by (unfold_bounds; lia).
    unfold s2. do 3 f_equal.
    autorewrite with machine. change (tape s1) with (tape m1).
    by rewrite poke_other by congruence. }
  assert (Hp2 : pos (_ptr s2) = p + 1 + 1).
  { unfold s2. rewrite pos_next. autorewrite with machine. rewrite Hp1.
    apply wrap_small. unfold_bounds. lia. }
  assert (Hcf : data (tape s2 !!! _CF) = flag (va <? vb)).
  { unfold s2. autorewrite with machine. by rewrite poke_same. }
  assert (Hzf2 : data (tape s2 !!! _ZF) = flag (va =? vb)).
  { unfold s2. autorewrite with machine.
    rewrite poke_other by (unfold _CF, _ZF; lia). by rewrite poke_same. }
  (* the JL *)
  assert (Hcell : tape s2 !!! (p + 1 + 1) = tape m1 !!! (p + 1 + 1)).
  { unfold s2. autorewrite with machine. change (tape s1) with (tape m1).
    rewrite !poke_other; [reflexivity | |]; unfold_bounds; lia. }
  assert (Hs3 : step s2
    = Running (if flag (va <? vb) =? 1 then goto t s2 else next s2)).
  { unfold step. rewrite Hp2, Hcell, H2, Hcf. simpl.
    rewrite (ltb_false_le _ (p + 1 + 1)), (ltb_false_le _ t)
      by (unfold_bounds; lia).
    reflexivity. }
  exists m1, s2, (if flag (va <? vb) =? 1 then goto t s2 else next s2).
  split; [exact Hasm|].
  split.
  { change (goto (pos (_ptr m)) m1) with s0. rewrite run_step, Hs1.
    change (run 1 s1 = Running s2). by rewrite run_step, Hs2. }
  split. { rewrite Hzf2, flag_is_1. apply N.eqb_eq. }
  split. { rewrite Hcf, flag_is_1. apply N.ltb_lt. }
  split; [exact Hs3|].
  split.
  - intros Hlt. apply N.ltb_lt in Hlt. change ((va <? vb) = true) in Hlt.
    by rewrite Hlt.
  - intros Hge. apply N.ltb_nlt in Hge. change ((va <? vb) = false) in Hge.
    rewrite Hge. change (flag false =? 1) with false. cbv iota.
    rewrite pos_next, Hp2. rewrite wrap_small by (unfold_bounds; lia). lia.
Qed.

Lemma cmp_sets_flags_jl_branches_witness : cmp_then_jl cmp_state 5 6 201010.
Proof.
  apply cmp_sets_flags_jl_branches; vm_compute; discriminate.
Defined.

(** ** Quoted strings *)

Lemma string_length_app (a b : string) :
  String.length (a ++ b) = (String.length a + String.length b)%nat.
Proof.
  induction a as [|x a IH]; [reflexivity|].
  change (S (String.length (a ++ b)) = S (String.length a + String.length b)).
  by rewrite IH.
Qed.

Lemma substring_prefix (a b : string) :
  String.substring 0 (String.length a) (a ++ b) = a.
Proof.
  induction a as [|x a IH]; simpl.
  - by destruct b.
  - change (String x a ++ b)%string with (String x (a ++ b)). by rewrite IH.
Qed.












(** ** The instruction pointer *)

(** C2, as stated, fails: [jmp 0x5] takes the pointer to the data address 5,
    below the code region, without a fault, and the loop goes on from there. *)
Lemma jump_below_code_counterexample :
  ~ pointer_stays_in_code jump_out /\
  exists m0 m1 m2,
    assemble_tasm jump_out = Ok m0 /\ step m0 = Running m1 /\
    pos (_ptr m1) = 5 /\ step m1 = Running m2 /\ pos (_ptr m2) = 6.
Proof.
  assert (Hrun : exists m0 m1 m2,
    assemble_tasm jump_out = Ok m0 /\ step m0 = Running m1 /\
    pos (_ptr m1) = 5 /\ step m1 = Running m2 /\ pos (_ptr m2) = 6).
  { eexists. eexists. eexists.
    split; [vm_compute; reflexivity|].
    split; [vm_compute; reflexivity|].
    split; [reflexivity|].
    split; [vm_compute; reflexivity | reflexivity]. }
  split; [|exact Hrun].
  destruct Hrun as (m0 & m1 & m2 & Hasm & Hstep & Hpos & _).
  intros Hclaim.
  destruct (Hclaim m0 m1 Hasm (reach_step m0 m0 m1 (reach_start m0) Hstep))
    as [Hlow _].
  rewrite Hpos in Hlow. vm_compute in Hlow. by apply Hlow.
Qed.

(** C2, amended.  A round that starts with the pointer above 300999 raises
    the out-of-bounds fault, so every primitive that executes is fetched at
    300999 or below.  The low bound 201000 is not checked: a [JUMP] whose
    operand is at most 300999 continues at that operand, wherever it lies. *)
Theorem pointer_checked_against_END (m : machine) :
  let p := pos (_ptr m) in
  let addr := data (tape m !!! p) in
  (_END < p -> step m = Fault (MemoryOutOfBounds p)) /\
  (forall m', step m = Running m' \/ step m = Halted m' -> p <= _END) /\
  (p <= _END -> addr <= _END -> ins (tape m !!! p) = I_JUMP ->
   step m = Running (goto addr m)).
Proof.
  intros p addr. subst p addr. repeat split.
  - intros Habove. unfold step. by rewrite (ltb_true_lt _ _ Habove).
  - intros m' Hstep. unfold step in Hstep.
    destruct (_END <? pos (_ptr m)) eqn:Hcmp.
    + destruct Hstep as [Hstep | Hstep]; discriminate Hstep.
    + by apply N.ltb_ge.
  - intros Hp Ha Hi. fetch Hp Ha. by rewrite Hi.
Qed.

Lemma pointer_checked_against_END_witness :
  step past_end_state = Fault (MemoryOutOfBounds (_END + 1)) /\
  step jump_state = Running (goto 5 jump_state).
Proof.
  split.
  - apply (pointer_checked_against_END past_end_state). vm_compute. reflexivity.
  - apply (pointer_checked_against_END jump_state);
      [vm_compute; discriminate | vm_compute; discriminate | reflexivity].
Defined.

(** ** The code region at run time *)

(** The two cells of a dereference prologue. *)
Lemma load_deref_ok (a : DWORD) (overwrite_at : N) (m : machine) :
  pos (_ptr m) + 1 + overwrite_at <= _END ->
  load_deref_instructions (Some a) overwrite_at m
  = Ok (placed (cell I_WRITE (pos (_ptr m) + 1 + overwrite_at))
          (placed (cell I_READ a) m)).
Proof.
  intros H. assert (H0 : pos (_ptr m) <= _END) by lia.
  unfold load_deref_instructions, store_ins, store_operand, store_data.
  rewrite (andthen_ok _ _ _ _ (store_ok _ m H0)).
  rewrite (andthen_ok _ _ _ _ (store_twice (set_ins I_READ) (set_data a) m H0)).
  rewrite (andthen_ok _ _ _ (placed (cell I_READ a) m))
    by exact (advance_after_store _ m H0).
  set (m1 := placed (cell I_READ a) m).
  assert (H1 : pos (_ptr m1) <= _END) by (unfold m1; rewrite pos_placed; lia).
  assert (Hw : wrap (pos (_ptr m1) + overwrite_at) = pos (_ptr m) + 1 + overwrite_at).
  { unfold m1. rewrite pos_placed. apply wrap_small. unfold_bounds. lia. }
  rewrite (andthen_ok _ _ _ _ (store_ok _ m1 H1)).
  rewrite (andthen_ok _ _ _
    (with_tape (poke (pos (_ptr m1))
                  (cell I_WRITE (pos (_ptr m) + 1 + overwrite_at)) (tape m1)) m1)).
  - exact (advance_after_store _ m1 H1).
  - change (store (set_data (wrap (pos (_ptr m1) + overwrite_at)))
              (with_tape (poke (pos (_ptr m1)) (set_ins I_WRITE) (tape m1)) m1)
            = Ok (with_tape (poke (pos (_ptr m1))
                    (cell I_WRITE (pos (_ptr m) + 1 + overwrite_at)) (tape m1)) m1)).
    rewrite Hw.
    exact (store_twice (set_ins I_WRITE)
             (set_data (pos (_ptr m) + 1 + overwrite_at)) m1 H1).
Qed.

(** C1, as stated, fails: in the program [not [0x5]] the [WRITE] of the
    prologue overwrites the operand of the [NOT] cell, 201002 in the code
    region, at run time: it held 5 after assembly and holds 0 afterwards. *)
Lemma trampoline_rewrites_code_counterexample :
  ~ code_never_written deref_not /\
  exists m0 m1 m2,
    assemble_tasm deref_not = Ok m0 /\
    step m0 = Running m1 /\ step m1 = Running m2 /\
    ins (tape m1 !!! pos (_ptr m1)) = I_WRITE /\
    in_code 201002 /\
    tape m1 !!! 201002 = mkBLOCK I_NOT 5 0 /\
    tape m2 !!! 201002 = mkBLOCK I_NOT 0 0.
Proof.
  assert (Hrun : exists m0 m1 m2,
    assemble_tasm deref_not = Ok m0 /\
    step m0 = Running m1 /\ step m1 = Running m2 /\
    ins (tape m1 !!! pos (_ptr m1)) = I_WRITE /\
    in_code 201002 /\
    tape m1 !!! 201002 = mkBLOCK I_NOT 5 0 /\
    tape m2 !!! 201002 = mkBLOCK I_NOT 0 0).
  { eexists. eexists. eexists.
    split; [vm_compute; reflexivity|].
    split; [vm_compute; reflexivity|].
    split; [vm_compute; reflexivity|].
    split; [reflexivity|].
    split; [split; vm_compute; discriminate|].
    split; vm_compute; reflexivity. }
  split; [|exact Hrun].
  destruct Hrun as (m0 & m1 & m2 & Hasm & Hs1 & Hs2 & _ & Hc & Hbefore & Hafter).
  intros Hclaim.
  pose proof (Hclaim m0 m1 m2 201002 Hasm
                (reach_step m0 m0 m1 (reach_start m0) Hs1) Hs2 Hc) as Heq.
  rewrite Hbefore, Hafter in Heq. discriminate Heq.
Qed.

(** C1, amended.  No round of the loop changes the [ins] field of any
    cell, inside the code region or outside it, and a cell of the code
    region changes only when it is the operand address of a [WRITE] or of an
    arithmetic or bitwise primitive, or the slot [STK] names at a [CALL].  The prologue emitted for an indirect
    operand is such a [WRITE]: run from its first cell, it overwrites the
    [data] and [dtype] of the code cell [overwrite_at] steps behind its
    second cell with those of the bracketed address. *)
Theorem code_changes_only_as_operand :
  (forall (m m' : machine) (c : N),
     step m = Running m' ->
     let i := ins (tape m !!! pos (_ptr m)) in
     ins (tape m' !!! c) = ins (tape m !!! c) /\
     (in_code c -> tape m' !!! c ≠ tape m !!! c ->
      (c = data (tape m !!! pos (_ptr m)) /\
       (i = I_WRITE \/ arith_bitwise i = true)) \/
      (c = data (tape m !!! _STK) /\ i = I_CALL))) /\
  (forall (m : machine) (a : DWORD) (overwrite_at : N),
     let p := pos (_ptr m) in
     in_code p -> p + 1 + overwrite_at <= _END -> a <= _END ->
     exists m1 m2,
       load_deref_instructions (Some a) overwrite_at m = Ok m1 /\
       run 2 (goto p m1) = Running m2 /\
       data (tape m2 !!! (p + 1 + overwrite_at)) = data (tape m1 !!! a) /\
       dtype (tape m2 !!! (p + 1 + overwrite_at)) = dtype (tape m1 !!! a) /\
       pos (_ptr m2) = p + 2).
Proof.
  split.
  - intros m m' c Hstep i. subst i.
    split; [by apply step_keeps_ins|].
    intros Hc.
    assert (Hreg : c ≠ _ZF /\ c ≠ _CF /\ c ≠ _DISP /\ c ≠ _STK)
      by (unfold_bounds; lia).
    destruct Hreg as (Hzf & Hcf & Hdisp & Hstk).
    revert Hstep. unfold step.
    destruct (_END <? pos (_ptr m)); [discriminate|].
    destruct (_END <? data (tape m !!! pos (_ptr m))); [discriminate|].
    destruct (ins (tape m !!! pos (_ptr m)));
      repeat match goal with
      | |- context [if ?b then _ else _] => destruct b
      end;
      intros [= <-]; autorewrite with machine; intros Hne;
      try (exfalso; apply Hne; rewrite ?poke_other by congruence; reflexivity);
      try (left; split; [|by auto];
           destruct (decide (c = data (tape m !!! pos (_ptr m)))) as [Heq|Hneq];
           [exact Heq|];
           exfalso; apply Hne; rewrite ?poke_other by congruence; reflexivity).
    right. split; [|reflexivity].
    destruct (decide (c = data (tape m !!! _STK))) as [Heq|Hneq]; [exact Heq|].
    exfalso; apply Hne; rewrite ?poke_other by congruence; reflexivity.
  - intros m a k p. subst p. intros [Hlo Hhi] Hfit Ha.
    set (p := pos (_ptr m)) in *.
    set (m1 := placed (cell I_WRITE (p + 1 + k)) (placed (cell I_READ a) m)).
    assert (H0 : tape m1 !!! p = cell I_READ a (tape m !!! p)).
    { unfold m1. rewrite !tape_placed, pos_placed. fold p.
      rewrite poke_other by lia. apply poke_same. }
    assert (H1 : tape m1 !!! (p + 1) = cell I_WRITE (p + 1 + k) (tape m !!! (p + 1))).
    { unfold m1. rewrite !tape_placed, pos_placed. fold p.
      rewrite poke_same. by rewrite poke_other by lia. }
    set (s0 := goto p m1).
    set (s1 := next (with_scratch (data (tape m1 !!! a)) (dtype (tape m1 !!! a)) s0)).
    assert (Hs1 : step s0 = Running s1).
    { unfold step. change (pos (_ptr s0)) with p. change (tape s0) with (tape m1).
      rewrite H0. cbn [cell data ins].
      rewrite (ltb_false_le _ p), (ltb_false_le _ a) by (unfold_bounds; lia).
      reflexivity. }
    assert (Hp1 : pos (_ptr s1) = p + 1).
    { unfold s1. rewrite pos_next. apply wrap_small.
      change (pos (_ptr (with_scratch _ _ s0))) with p. unfold_bounds. lia. }
    set (t2 := poke (p + 1 + k) (set_dtype (dtype (tape m1 !!! a)))
                 (poke (p + 1 + k) (set_data (data (tape m1 !!! a))) (tape m1))).
    assert (Hs2 : step s1 = Running (next (with_tape t2 s1))).
    { unfold step. rewrite Hp1. change (tape s1) with (tape m1).
      rewrite H1. cbn [cell data ins].
      rewrite (ltb_false_le _ (p + 1)), (ltb_false_le _ (p + 1 + k))
        by (unfold_bounds; lia).
      autorewrite with machine.
      replace (p + 1 + k <=? _OUT_END) with false
        by (symmetry; apply N.leb_gt; unfold_bounds; lia).
      rewrite andb_false_r. reflexivity. }
    exists m1, (next (with_tape t2 s1)).
    split; [by apply load_deref_ok|].
    split.
    { change (goto p m1) with s0. rewrite run_step, Hs1.
      change (run 1 s1 = Running (next (with_tape t2 s1))). by rewrite run_step, Hs2. }
    autorewrite with machine. unfold t2.
    repeat split.
    + rewrite poke_same. cbn [set_dtype data]. by rewrite poke_same.
    + by rewrite poke_same.
    + rewrite Hp1. rewrite wrap_small by (unfold_bounds; lia). lia.
Qed.

Lemma code_changes_only_as_operand_witness :
  exists m1 m2,
    load_deref_instructions (Some 5) 1 deref_state = Ok m1 /\
    run 2 (goto _MAIN m1) = Running m2 /\
    data (tape m2 !!! (_MAIN + 2)) = data (tape m1 !!! 5).
Proof.
  destruct code_changes_only_as_operand as [_ Hprologue].
  destruct (Hprologue deref_state 5 1) as (m1 & m2 & Hasm & Hrun & Hdata & _).
  - split; vm_compute; discriminate.
  - vm_compute. discriminate.
  - vm_compute. discriminate.
  - exists m1, m2. split; [exact Hasm|]. split; [exact Hrun | exact Hdata].
Defined.

Example deref_state_pointer :
  exists m1, load_deref_instructions (Some 5) 1 deref_state = Ok m1 /\
    data (tape m1 !!! 5) = 9.
Proof. eexists. split; vm_compute; reflexivity. Qed.

(** * Further properties of the code *)

(** ** The hash map *)

Lemma hash_lt (key : string) : hash key < STACK_SIZE.
Proof. unfold hash. apply N.mod_lt. discriminate. Qed.

Lemma hash_index (map : list (list (string * N))) (key : string) :
  length map = N.to_nat STACK_SIZE -> (N.to_nat (hash key) < length map)%nat.
Proof. intros ->. pose proof (hash_lt key). lia. Qed.

Lemma chain_update_get (curr chain : list (string * N)) (key : string) (value : N) :
  chain_update curr key value = Some chain -> chain_get chain key = Some value.
Proof.
  revert chain. induction curr as [|[k v] next IH]; intros chain; simpl.
  - discriminate.
  - destruct (String.eqb k key) eqn:Hk.
    + intros [= <-]. simpl. by rewrite Hk.
    + destruct (chain_update next key value) as [next'|]; [|discriminate].
      intros [= <-]. simpl. rewrite Hk. by apply IH.
Qed.

Lemma chain_update_absent (curr : list (string * N)) (key : string) (value : N) :
  chain_update curr key value = None <-> chain_get curr key = None.
Proof.
  induction curr as [|[k v] next IH]; simpl; [done|].
  destruct (String.eqb k key); [split; discriminate|].
  destruct (chain_update next key value); simpl.
  - split; [discriminate|]. intros H. apply IH in H. discriminate.
  - split; [intros _; by apply IH | done].
Qed.

Lemma chain_update_other (curr chain : list (string * N)) (key key' : string)
    (value : N) :
  key ≠ key' ->
  chain_update curr key value = Some chain ->
  chain_get chain key' = chain_get curr key'.
Proof.
  intros Hne. revert chain. induction curr as [|[k v] next IH]; intros chain; simpl.
  - discriminate.
  - destruct (String.eqb k key) eqn:Hk.
    + intros [= <-]. simpl. apply String.eqb_eq in Hk. subst k.
      apply String.eqb_neq in Hne. by rewrite Hne.
    + destruct (chain_update next key value) as [next'|]; [|discriminate].
      intros [= <-]. simpl. destruct (String.eqb k key'); [reflexivity|].
      by apply IH.
Qed.

Lemma chain_update_length (curr chain : list (string * N)) (key : string) (value : N) :
  chain_update curr key value = Some chain -> length chain = length curr.
Proof.
  revert chain. induction curr as [|[k v] next IH]; intros chain; simpl.
  - discriminate.
  - destruct (String.eqb k key).
    + by intros [= <-].
    + destruct (chain_update next key value) as [next'|]; [|discriminate].
      intros [= <-]. simpl. f_equal. by apply IH.
Qed.

Lemma bucket_insert_same (map : list (list (string * N))) (index : N)
    (chain : list (string * N)) :
  (N.to_nat index < length map)%nat ->
  bucket (<[N.to_nat index := chain]> map) index = chain.
Proof. intros H. unfold bucket. by rewrite list_lookup_insert_eq. Qed.

Lemma bucket_insert_other (map : list (list (string * N))) (index index' : N)
    (chain : list (string * N)) :
  index ≠ index' ->
  bucket (<[N.to_nat index := chain]> map) index' = bucket map index'.
Proof. intros H. unfold bucket. rewrite list_lookup_insert_ne; [done | lia]. Qed.

Lemma map_get_insert_same (map : list (list (string * N))) (key : string)
    (value : N) :
  length map = N.to_nat STACK_SIZE ->
  map_get (map_insert map key value) key = Some value.
Proof.
  intros Hlen. pose proof (hash_index map key Hlen) as Hidx.
  unfold map_get, map_insert.
  destruct (chain_update (bucket map (hash key)) key value) as [chain|] eqn:Hup;
    rewrite bucket_insert_same by exact Hidx.
  - by eapply chain_update_get.
  - simpl. by rewrite String.eqb_refl.
Qed.

(** X1.  Looking up a key right after inserting it gives the inserted
    value, whether the key was new or already in the table. *)
Theorem map_get_insert (map : list (list (string * N))) (key : string) (value : N) :
  length map = N.to_nat STACK_SIZE ->
  map_get (map_insert map key value) key = Some value.
Proof. apply map_get_insert_same. Qed.

Lemma map_get_insert_witness : map_get (map_insert init_map "main" 201000) "main" = Some 201000.
Proof. apply map_get_insert. reflexivity. Defined.

Lemma map_get_insert_diff (map : list (list (string * N))) (key key' : string)
    (value : N) :
  key ≠ key' ->
  map_get (map_insert map key value) key' = map_get map key'.
Proof.
  intros Hne. unfold map_get, map_insert.
  destruct (decide (hash key = hash key')) as [Heq | Hdiff].
  - rewrite <- Heq.
    destruct (decide (N.to_nat (hash key) < length map)%nat) as [Hidx | Hout].
    + destruct (chain_update (bucket map (hash key)) key value) as [chain|] eqn:Hup;
        rewrite bucket_insert_same by exact Hidx.
      * by eapply chain_update_other.
      * simpl. apply String.eqb_neq in Hne. by rewrite Hne.
    + destruct (chain_update (bucket map (hash key)) key value);
        by rewrite list_insert_ge by lia.
  - destruct (chain_update (bucket map (hash key)) key value);
      by rewrite bucket_insert_other.
Qed.

(** X2.  Inserting a key leaves the value of every other key as it was,
    also when both keys share a chain. *)
Theorem map_get_insert_other (map : list (list (string * N))) (key key' : string)
    (value : N) :
  key ≠ key' ->
  map_get (map_insert map key value) key' = map_get map key'.
Proof. apply map_get_insert_diff. Qed.

Lemma map_get_insert_other_witness :
  map_get (map_insert (map_insert init_map "loop" 201004) "main" 201000) "loop"
  = map_get (map_insert init_map "loop" 201004) "loop".
Proof. apply map_get_insert_other. discriminate. Defined.

Lemma map_insert_length (map : list (list (string * N))) (key : string) (value : N) :
  length (map_insert map key value) = length map.
Proof.
  unfold map_insert.
  destruct (chain_update (bucket map (hash key)) key value); apply length_insert.
Qed.

Lemma map_get_init (key : string) : map_get init_map key = None.
Proof.
  unfold map_get, bucket, init_map.
  destruct (replicate (N.to_nat STACK_SIZE) [] !! N.to_nat (hash key))
    as [chain|] eqn:Hlook; [|reflexivity].
  apply lookup_replicate in Hlook as [-> _]. reflexivity.
Qed.

(** X3.  The hash map implements the finite map the assembler is modelled
    with: the initial table is empty, and a table that holds the bindings of
    [g] holds, after [map_insert], those of [g] with the key set to the
    value. *)
Theorem hash_map_refines_gmap :
  represents init_map ∅ /\
  forall map g key value,
    represents map g -> represents (map_insert map key value) (<[key := value]> g).
Proof.
  split.
  - split; [apply length_replicate|].
    intros key. rewrite map_get_init. by rewrite lookup_empty.
  - intros map g key value [Hlen Hget]. split.
    + by rewrite map_insert_length.
    + intros key'. destruct (decide (key = key')) as [<- | Hne].
      * rewrite lookup_insert_eq. by apply map_get_insert_same.
      * rewrite lookup_insert_ne by exact Hne.
        rewrite map_get_insert_diff by exact Hne. apply Hget.
Qed.

Lemma hash_map_refines_gmap_witness :
  represents (map_insert init_map "main" 201000) {[ "main" := 201000 ]}.
Proof.
  destruct hash_map_refines_gmap as [Hinit Hstep].
  exact (Hstep init_map ∅ "main" 201000 Hinit).
Defined.

Lemma concat_insert_length (l : list (list (string * N))) (i : nat)
    (c d : list (string * N)) :
  l !! i = Some d ->
  (length (concat (<[i := c]> l)) + length d = length (concat l) + length c)%nat.
Proof.
  revert i. induction l as [|x l IH]; intros [|i] Hi; simpl in *; try discriminate.
  - injection Hi as ->. rewrite !length_app. lia.
  - rewrite !length_app. specialize (IH i Hi). lia.
Qed.

(** X4.  [map_insert] allocates a pair only for a key that is not in the
    table yet: for a key that is there the value is replaced in place and the
    number of pairs stays the same. *)
Theorem map_insert_pair_count (map : list (list (string * N))) (key : string)
    (value : N) :
  length map = N.to_nat STACK_SIZE ->
  pair_count (map_insert map key value)
  = match map_get map key with
    | Some _ => pair_count map
    | None => S (pair_count map)
    end.
Proof.
  intros Hlen. pose proof (hash_index map key Hlen) as Hidx.
  destruct (lookup_lt_is_Some_2 _ _ Hidx) as [d Hd].
  assert (Hb : bucket map (hash key) = d) by (unfold bucket; by rewrite Hd).
  unfold pair_count, map_insert, map_get. rewrite Hb.
  destruct (chain_update d key value) as [chain|] eqn:Hup.
  - pose proof (chain_update_get _ _ _ _ Hup) as Hget.
    destruct (chain_get d key) eqn:Hold.
    + pose proof (concat_insert_length map _ chain d Hd) as Hcount.
      rewrite (chain_update_length _ _ _ _ Hup) in Hcount. lia.
    + apply chain_update_absent with (value := value) in Hold. congruence.
  - apply chain_update_absent in Hup. rewrite Hup.
    pose proof (concat_insert_length map _ ((key, value) :: d) d Hd) as Hcount.
    simpl in Hcount. lia.
Qed.

Lemma map_insert_pair_count_witness :
  pair_count (map_insert init_map "main" 201000)
  = match map_get init_map "main" with
    | Some _ => pair_count init_map
    | None => S (pair_count init_map)
    end.
Proof. apply map_insert_pair_count. reflexivity. Defined.

(** ** The file name check *)

Lemma string_from_app (pre post : string) :
  string_from (String.length pre) (pre ++ post) = post.
Proof. induction pre as [|x pre IH]; [reflexivity | exact IH]. Qed.

(** The characters of [s] do not include [c]. *)
Lemma strrchr_None (s : string) (c : ascii) :
  strrchr s c = None <-> forall i, String.get i s ≠ Some c.
Proof.
  induction s as [|x s IH]; simpl.
  - split; [intros _ i; by destruct i | done].
  - destruct (strrchr s c) as [j|] eqn:Hs.
    + split; [discriminate|]. intros Hall.
      destruct IH as [_ IH]. discriminate (IH (fun i => Hall (S i))).
    + destruct (Ascii.eqb_spec x c) as [-> | Hxc].
      * split; [discriminate|]. intros Hall. by destruct (Hall O).
      * split; [|done]. intros _ [|i]; simpl.
        -- intros [= Heq]. by apply Hxc.
        -- by apply IH.
Qed.

(** The last [c] splits the string: no [c] behind it. *)
Lemma strrchr_Some (s : string) (c : ascii) (i : nat) :
  strrchr s c = Some i ->
  exists pre post,
    s = (pre ++ String c post)%string /\ String.length pre = i /\
    strrchr post c = None.
Proof.
  revert i. induction s as [|x s IH]; intros i; simpl; [discriminate|].
  destruct (strrchr s c) as [j|] eqn:Hs.
  - intros [= <-]. destruct (IH j eq_refl) as (pre & post & -> & <- & Hpost).
    exists (String x pre), post. done.
  - destruct (Ascii.eqb_spec x c) as [-> | Hxc]; [|discriminate].
    intros [= <-]. exists EmptyString, s. done.
Qed.

Lemma strrchr_last (pre post : string) (c : ascii) :
  strrchr post c = None ->
  strrchr (pre ++ String c post) c = Some (String.length pre).
Proof.
  intros Hpost. induction pre as [|x pre IH]; simpl.
  - by rewrite Hpost, Ascii.eqb_refl.
  - change (String x pre ++ String c post)%string
      with (String x (pre ++ String c post)).
    simpl. by rewrite IH.
Qed.

Lemma has_extension_spec (file_name ext : string) :
  has_extension file_name ext = true <->
  strrchr ext "."%char = None /\
  exists base, base ≠ EmptyString /\ file_name = (base ++ String "."%char ext)%string.
Proof.
  unfold has_extension. split.
  - destruct (strrchr file_name ".") as [[|i]|] eqn:Hdot; try discriminate.
    intros Heq. apply String.eqb_eq in Heq.
    destruct (strrchr_Some _ _ _ Hdot) as (pre & post & -> & Hlen & Hpost).
    rewrite <- Hlen in Heq.
    change (S (String.length pre)) with (String.length (String "."%char pre)) in Heq.
    assert (Hfrom : string_from (S (String.length pre)) (pre ++ String "." post) = post).
    { clear. induction pre as [|x pre IH]; [reflexivity | exact IH]. }
    change (String.length (String "."%char pre)) with (S (String.length pre)) in Heq.
    rewrite Hfrom in Heq. subst post.
    split; [exact Hpost|]. exists pre. split; [|reflexivity].
    intros ->. discriminate Hlen.
  - intros [Hext (base & Hbase & ->)].
    rewrite (strrchr_last base ext "." Hext).
    destruct base as [|x base]; [done|]. simpl String.length. cbv iota.
    assert (Hfrom : string_from (S (S (String.length base)))
                      (String x base ++ String "." ext) = ext).
    { change (string_from (S (String.length base)) (base ++ String "." ext) = ext).
      clear. induction base as [|y base IH]; [reflexivity | exact IH]. }
    rewrite Hfrom. apply String.eqb_refl.
Qed.

(** X5.  [has_extension] accepts exactly the names that consist of a
    non-empty part, a dot, and the extension, for an extension without a dot:
    a name that begins with its only dot, such as [.tasm], is refused. *)
Theorem has_extension_iff (file_name ext : string) :
  has_extension file_name ext = true <->
  strrchr ext "."%char = None /\
  exists base, base ≠ EmptyString /\ file_name = (base ++ String "."%char ext)%string.
Proof. apply has_extension_spec. Qed.

Lemma has_extension_iff_witness :
  has_extension "fib.tasm" "tasm" = true /\ has_extension ".tasm" "tasm" = false.
Proof.
  split.
  - apply has_extension_iff. split; [reflexivity|].
    exists "fib". split; [discriminate | reflexivity].
  - destruct (has_extension ".tasm" "tasm") eqn:H; [|reflexivity].
    apply has_extension_iff in H as [_ (base & Hbase & Heq)].
    destruct base as [|x base]; [done|].
    injection Heq as -> Heq.
    destruct base as [|y base]; [discriminate Heq|].
    injection Heq as -> Heq.
    repeat (destruct base as [|? base]; [discriminate Heq | injection Heq as -> Heq]).
    destruct base; discriminate Heq.
Defined.

(** ** What the lowering writes *)

Lemma andthen_inv (a b : action) (m m' : machine) :
  (a >> b) m = Ok m' -> exists m1, a m = Ok m1 /\ b m1 = Ok m'.
Proof.
  unfold andthen. destruct (a m) as [m1| |]; try discriminate.
  intros H. by exists m1.
Qed.

Lemma same_outside_refl (lo hi : N) (m : machine) : same_outside lo hi m m.
Proof. by repeat split. Qed.

Lemma same_outside_trans (lo mid hi : N) (m m1 m2 : machine) :
  lo <= mid -> mid <= hi ->
  same_outside lo mid m m1 -> same_outside mid hi m1 m2 -> same_outside lo hi m m2.
Proof.
  intros H1 H2 (Hd & Ht & Hs & Hc) (Hd' & Ht' & Hs' & Hc').
  repeat split; try congruence.
  intros c Hout. rewrite Hc' by lia. apply Hc. lia.
Qed.

Lemma emits_eq (a : action) (n n' : N) : emits a n -> n = n' -> emits a n'.
Proof. by intros H <-. Qed.

Lemma emits_skip : emits skip 0.
Proof.
  intros m m' [= <-] _. split; [lia | apply same_outside_refl].
Qed.

Lemma emits_store_at (f : machine -> BLOCK -> BLOCK) :
  emits (fun m => store (f m) m) 0.
Proof.
  intros m m' Hst _. unfold store in Hst.
  destruct (pos (_ptr m) <=? _END); [|discriminate].
  injection Hst as <-. split; [simpl; lia|].
  repeat split. intros c Hc. simpl. apply poke_other. lia.
Qed.

Lemma emits_store (f : BLOCK -> BLOCK) : emits (store f) 0.
Proof. exact (emits_store_at (fun _ => f)). Qed.

Lemma emits_store_ins (i : INSTRUCTION) : emits (store_ins i) 0.
Proof. apply emits_store. Qed.

Lemma emits_store_dtype (t : BYTE) : emits (store_dtype t) 0.
Proof. apply emits_store. Qed.

Lemma emits_store_data_at (g : machine -> DWORD) :
  emits (fun m => store_data (g m) m) 0.
Proof. exact (emits_store_at (fun m => set_data (g m))). Qed.

Lemma emits_store_operand (a : option DWORD) : emits (store_operand a) 0.
Proof.
  destruct a as [d|]; [apply emits_store|]. intros m m' H. discriminate H.
Qed.

Lemma emits_advance : emits advance 1.
Proof.
  intros m m' [= <-] Hfit. split.
  - simpl. by apply wrap_small.
  - repeat split.
Qed.

Lemma emits_andthen (a b : action) (n1 n2 : N) :
  emits a n1 -> emits b n2 -> emits (a >> b) (n1 + n2).
Proof.
  intros Ha Hb m m' Hab Hfit.
  destruct (andthen_inv _ _ _ _ Hab) as (m1 & H1 & H2).
  destruct (Ha m m1 H1 ltac:(lia)) as [Hp1 Hs1].
  destruct (Hb m1 m' H2 ltac:(lia)) as [Hp2 Hs2].
  split; [lia|].
  rewrite Hp1 in Hs2.
  replace (pos (_ptr m) + (n1 + n2)) with (pos (_ptr m) + n1 + n2) by lia.
  eapply same_outside_trans; [| |exact Hs1|exact Hs2]; lia.
Qed.

Lemma emits_when (c : bool) (a : action) (n : N) :
  emits a n -> emits (when c a) (if c then n else 0).
Proof. destruct c; [done | intros _; apply emits_skip]. Qed.

Lemma emits_emit (i : INSTRUCTION) (a : option DWORD) : emits (emit i a) 1.
Proof.
  unfold emit. eapply emits_eq.
  - apply emits_andthen; [apply emits_store_ins|].
    apply emits_andthen; [apply emits_store_operand | apply emits_advance].
  - reflexivity.
Qed.

Lemma emits_deref (addr : option DWORD) (overwrite_at : N) :
  emits (load_deref_instructions addr overwrite_at) 2.
Proof.
  unfold load_deref_instructions. eapply emits_eq.
  - apply emits_andthen; [apply emits_store_ins|].
    apply emits_andthen; [apply emits_store_operand|].
    apply emits_andthen; [apply emits_advance|].
    apply emits_andthen; [apply emits_store_ins|].
    apply emits_andthen; [|apply emits_advance].
    apply (emits_store_data_at (fun m => wrap (pos (_ptr m) + overwrite_at))).
  - reflexivity.
Qed.

Lemma emits_unary (deref_1 : bool) (i : INSTRUCTION) (a1 : option DWORD) :
  emits (load_unary deref_1 i a1) (deref_size deref_1 + 1).
Proof.
  unfold load_unary.
  apply emits_andthen; [|apply emits_emit].
  apply (emits_when deref_1 _ 2), emits_deref.
Qed.

Lemma emits_binary (deref_1 deref_2 : bool) (i : INSTRUCTION) (a1 a2 : option DWORD) :
  emits (load_binary deref_1 deref_2 i a1 a2)
        (deref_size deref_2 + deref_size deref_1 + 2).
Proof.
  unfold load_binary. eapply emits_eq.
  - apply emits_andthen; [apply (emits_when deref_2 _ 2), emits_deref|].
    apply emits_andthen; [apply (emits_when deref_1 _ 2), emits_deref|].
    apply emits_andthen; apply emits_emit.
  - unfold deref_size. lia.
Qed.

Lemma emits_put (deref_1 deref_2 : bool) (a1 a2 : option DWORD) (data_type : BYTE) :
  emits (load_instruction "put" a1 a2 data_type deref_1 deref_2)
        (deref_size deref_2 + deref_size deref_1 + 3).
Proof.
  change (load_instruction "put" a1 a2 data_type deref_1 deref_2)
    with (when deref_2 (load_deref_instructions a2 (if deref_1 then 3 else 1)) >>
          when deref_1 (load_deref_instructions a1 3) >>
          store_ins I_NONE >> store_operand a2 >> store_dtype data_type >> advance >>
          store_ins I_READ >>
          (fun m => store_data (wrap (pos (_ptr m) + DWORD_MOD - 1)) m) >>
          advance >>
          emit I_WRITE a1).
  eapply emits_eq.
  - apply emits_andthen; [apply (emits_when deref_2 _ 2), emits_deref|].
    apply emits_andthen; [apply (emits_when deref_1 _ 2), emits_deref|].
    apply emits_andthen; [apply emits_store_ins|].
    apply emits_andthen; [apply emits_store_operand|].
    apply emits_andthen; [apply emits_store_dtype|].
    apply emits_andthen; [apply emits_advance|].
    apply emits_andthen; [apply emits_store_ins|].
    apply emits_andthen;
      [apply (emits_store_data_at (fun m => wrap (pos (_ptr m) + DWORD_MOD - 1)))|].
    apply emits_andthen; [apply emits_advance | apply emits_emit].
  - unfold deref_size. lia.
Qed.

Lemma emits_load_instruction (mnemonic : string) (a1 a2 : option DWORD)
    (data_type : BYTE) (deref_1 deref_2 : bool) :
  emits (load_instruction mnemonic a1 a2 data_type deref_1 deref_2)
        (lowering_size mnemonic deref_1 deref_2).
Proof.
  destruct (String.eqb mnemonic "put") eqn:Hput.
  { apply String.eqb_eq in Hput. subst mnemonic. apply emits_put. }
  unfold load_instruction, lowering_size. rewrite Hput.
  repeat match goal with
    | |- emits (if String.eqb mnemonic ?s then _ else _) _ =>
        destruct (String.eqb mnemonic s)
    end;
    first [ apply emits_emit | apply emits_unary | apply emits_binary
          | apply emits_skip | idtac ].
  eapply emits_eq; [apply emits_andthen; [apply emits_binary | apply emits_advance]|].
  lia.
Qed.

Lemma strict_store_then (f : BLOCK -> BLOCK) (b : action) : strict (store f >> b).
Proof.
  intros m m' H.
  destruct (andthen_inv _ _ _ _ H) as (m1 & Hst & _).
  unfold store in Hst. destruct (pos (_ptr m) <=? _END) eqn:Hle; [|discriminate].
  by apply N.leb_le.
Qed.

Lemma strict_then (a b : action) : strict a -> strict (a >> b).
Proof.
  intros Ha m m' H. destruct (andthen_inv _ _ _ _ H) as (m1 & H1 & _).
  by apply (Ha m m1).
Qed.

Lemma strict_when_then (c : bool) (a b : action) :
  strict a -> strict b -> strict (when c a >> b).
Proof.
  intros Ha Hb. destruct c; [by apply strict_then|].
  intros m m' H. destruct (andthen_inv _ _ _ _ H) as (m1 & [= <-] & H2).
  by apply (Hb m m').
Qed.

Lemma strict_emit (i : INSTRUCTION) (a : option DWORD) : strict (emit i a).
Proof. apply strict_store_then. Qed.

Lemma strict_deref (addr : option DWORD) (overwrite_at : N) :
  strict (load_deref_instructions addr overwrite_at).
Proof. apply strict_store_then. Qed.

Lemma strict_unary (deref_1 : bool) (i : INSTRUCTION) (a1 : option DWORD) :
  strict (load_unary deref_1 i a1).
Proof. apply strict_when_then; [apply strict_deref | apply strict_emit]. Qed.

Lemma strict_binary (deref_1 deref_2 : bool) (i : INSTRUCTION) (a1 a2 : option DWORD) :
  strict (load_binary deref_1 deref_2 i a1 a2).
Proof.
  apply strict_when_then; [apply strict_deref|].
  apply strict_when_then; [apply strict_deref|].
  apply strict_then, strict_emit.
Qed.

Lemma strict_guarded (a : action) : strict a -> guarded a.
Proof. intros Ha m m' H. right. by apply (Ha m m'). Qed.

Lemma guarded_skip : guarded skip.
Proof. intros m m' [= <-]. by left. Qed.

(** Every mnemonic starts with a store under the pointer; a token that is
    no mnemonic changes nothing. *)
Lemma guarded_load_instruction (mnemonic : string) (a1 a2 : option DWORD)
    (data_type : BYTE) (deref_1 deref_2 : bool) :
  guarded (load_instruction mnemonic a1 a2 data_type deref_1 deref_2).
Proof.
  unfold load_instruction.
  repeat match goal with
    | |- guarded (if String.eqb mnemonic ?s then _ else _) =>
        destruct (String.eqb mnemonic s)
    end;
    first [ apply guarded_skip | apply strict_guarded ];
    first [ apply strict_emit | apply strict_unary | apply strict_binary | idtac ].
  - apply strict_when_then; [apply strict_deref|].
    apply strict_when_then; [apply strict_deref|].
    apply strict_store_then.
  - apply strict_then, strict_binary.
Qed.

Lemma lowering_size_le (mnemonic : string) (deref_1 deref_2 : bool) :
  lowering_size mnemonic deref_1 deref_2 <= 7.
Proof.
  unfold lowering_size, deref_size.
  repeat match goal with
    | |- context [if String.eqb mnemonic ?s then _ else _] =>
        destruct (String.eqb mnemonic s)
    end;
    destruct deref_1, deref_2; lia.
Qed.

(** X6.  An instruction that assembles moves the emit pointer up by the
    size of its lowering (one to seven cells, two more per bracketed operand,
    and none for a token that is no mnemonic); it writes no cell below the
    old or above the new pointer and leaves the scratch and the output
    alone. *)
Theorem load_instruction_size_and_frame (mnemonic : string) (a1 a2 : option DWORD)
    (data_type : BYTE) (deref_1 deref_2 : bool) (m m' : machine) :
  pos (_ptr m) <= _END ->
  load_instruction mnemonic a1 a2 data_type deref_1 deref_2 m = Ok m' ->
  pos (_ptr m') = pos (_ptr m) + lowering_size mnemonic deref_1 deref_2 /\
  lowering_size mnemonic deref_1 deref_2 <= 7 /\
  same_outside (pos (_ptr m)) (pos (_ptr m')) m m'.
Proof.
  intros Hp Hload.
  pose proof (lowering_size_le mnemonic deref_1 deref_2) as Hle.
  destruct (emits_load_instruction _ _ _ _ _ _ m m' Hload) as [Hpos Hsame].
  { unfold_bounds. lia. }
  split; [exact Hpos|]. split; [exact Hle|]. by rewrite Hpos.
Qed.

Lemma load_instruction_size_and_frame_witness :
  exists m',
    load_instruction "mov" (Some 5) (Some 6) 0 true true (with_pos _MAIN boot) = Ok m' /\
    pos (_ptr m') = _MAIN + 6.
Proof.
  eexists. split; [vm_compute; reflexivity|].
  eapply (load_instruction_size_and_frame "mov" (Some 5) (Some 6) 0 true true
            (with_pos _MAIN boot)).
  - vm_compute. discriminate.
  - vm_compute. reflexivity.
Defined.

Lemma not_a_mnemonic (mnemonic s : string) :
  mnemonic ∉ mnemonics -> s ∈ mnemonics -> String.eqb mnemonic s = false.
Proof.
  intros Hout Hin. apply String.eqb_neq. intros ->. by apply Hout.
Qed.

(** X7.  A token that is none of the 24 mnemonics is dropped without a
    diagnostic: nothing is emitted and the globals stay as they are. *)
Theorem unknown_mnemonic_ignored (mnemonic : string) (a1 a2 : option DWORD)
    (data_type : BYTE) (deref_1 deref_2 : bool) (m : machine) :
  mnemonic ∉ mnemonics ->
  load_instruction mnemonic a1 a2 data_type deref_1 deref_2 m = Ok m.
Proof.
  intros Hout. unfold load_instruction.
  repeat match goal with
    | |- context [String.eqb mnemonic ?s] =>
        rewrite (not_a_mnemonic mnemonic s Hout)
          by (apply list_elem_of_In; simpl; tauto)
    end.
  reflexivity.
Qed.

Lemma unknown_mnemonic_ignored_witness :
  load_instruction "inc" (Some 5) None 0 false false boot = Ok boot.
Proof.
  apply unknown_mnemonic_ignored.
  intros Hin. apply list_elem_of_In in Hin. simpl in Hin.
  repeat (destruct Hin as [Hin | Hin]; [discriminate Hin|]). exact Hin.
Defined.

(** ** What holds between two lines *)

(** The string loop moves the pointer up, by at most seven cells past the
    end of the tape, and writes no cell outside that stretch. *)
Lemma load_chars_frame (mnemonic : string) (cs : list ascii) (a1 : option DWORD)
    (deref_1 deref_2 : bool) (m m' : machine) :
  pos (_ptr m) <= _END + 7 ->
  load_chars mnemonic cs a1 deref_1 deref_2 m = Ok m' ->
  pos (_ptr m) <= pos (_ptr m') /\ pos (_ptr m') <= _END + 7 /\
  same_outside (pos (_ptr m)) (pos (_ptr m')) m m'.
Proof.
  revert a1 m. induction cs as [|c cs IH]; intros a1 m Hp Hload; cbn [load_chars] in Hload.
  - injection Hload as <-. split; [lia|]. split; [exact Hp | apply same_outside_refl].
  - destruct (andthen_inv _ _ _ _ Hload) as (m1 & H1 & H2).
    pose proof (lowering_size_le mnemonic deref_1 deref_2) as Hle.
    destruct (emits_load_instruction _ _ _ _ _ _ m m1 H1) as [Hpos Hsame].
    { unfold_bounds. lia. }
    assert (Hp1 : pos (_ptr m1) <= _END + 7).
    { destruct (guarded_load_instruction _ _ _ _ _ _ m m1 H1) as [-> | Hin];
        [exact Hp | lia]. }
    destruct (IH _ m1 Hp1 H2) as (Hmono & Hend & Hsame').
    split; [lia|]. split; [exact Hend|].
    rewrite <- Hpos in Hsame.
    eapply same_outside_trans; [| |exact Hsame|exact Hsame']; lia.
Qed.

Lemma asm_inv_start : asm_inv asm_start.
Proof.
  unfold asm_inv, asm_start. simpl.
  split; [unfold_bounds; lia|]. split; [unfold_bounds; lia|].
  split; [intros key a H; by rewrite lookup_empty in H|].
  split; [intros c _; by rewrite lookup_total_empty|]. done.
Qed.

(** Moving on from [m] to [m'] keeps what holds between lines. *)
Lemma asm_inv_moved (labels : gmap string N) (m m' : machine) :
  asm_inv (labels, m) ->
  pos (_ptr m) <= pos (_ptr m') -> pos (_ptr m') <= _END + 7 ->
  same_outside (pos (_ptr m)) (pos (_ptr m')) m m' ->
  asm_inv (labels, m').
Proof.
  intros (Hlo & Hhi & Hlab & Hzero & Hd & Ht & Hs) Hmono Hend (Hd' & Ht' & Hs' & Hc).
  unfold asm_inv in *. simpl in *.
  split; [lia|]. split; [exact Hend|]. split; [exact Hlab|].
  split; [|repeat split; congruence].
  intros c Hout. rewrite Hc by lia. apply Hzero. lia.
Qed.

Lemma assemble_line_inv (ln : source_line) (st st' : asm_state) :
  asm_inv st -> assemble_line ln st = Ok st' -> asm_inv st'.
Proof.
  destruct st as [labels m]. intros Hinv. unfold assemble_line.
  destruct (Nat.eqb (String.length (line_ins ln)) 0); [by intros [= <-]|].
  destruct (_END <? pos (_ptr m)) eqn:Hend; [discriminate|].
  apply N.ltb_ge in Hend.
  destruct (is_char _ 58).
  - destruct (labels !! _) eqn:Hfresh; [discriminate|]. intros [= <-].
    destruct Hinv as (Hlo & Hhi & Hlab & Hrest).
    unfold asm_inv. simpl in *.
    split; [exact Hlo|]. split; [exact Hhi|]. split; [|exact Hrest].
    intros key a. rewrite lookup_insert. case_decide.
    + intros [= <-]. by split.
    + apply Hlab.
  - destruct (first_operand labels (line_first ln)) as [[a1 deref_1]| |];
      try discriminate.
    cbn [mbind result_bind].
    destruct (is_char (char_at (line_second ln) 0) 34).
    + destruct (load_chars _ _ _ _ _ m) as [m'| |] eqn:Hload; try discriminate.
      cbn [mbind result_bind]. intros [= <-].
      destruct (load_chars_frame _ _ _ _ _ m m' ltac:(lia) Hload)
        as (Hmono & Hlim & Hsame).
      by apply (asm_inv_moved labels m m').
    + destruct (second_operand (line_second ln)) as [a2 deref_2].
      destruct (load_instruction _ _ _ _ _ _ m) as [m'| |] eqn:Hload;
        try discriminate.
      cbn [mbind result_bind]. intros [= <-].
      pose proof (lowering_size_le (line_ins ln) deref_1 deref_2) as Hle.
      destruct (emits_load_instruction _ _ _ _ _ _ m m' Hload) as [Hpos Hsame].
      { unfold_bounds. lia. }
      rewrite <- Hpos in Hsame.
      apply (asm_inv_moved labels m m'); [exact Hinv | lia | lia | exact Hsame].
Qed.

Lemma assemble_lines_inv (lines : list source_line) (st st' : asm_state) :
  asm_inv st -> assemble_lines lines st = Ok st' -> asm_inv st'.
Proof.
  revert st. induction lines as [|ln lines IH]; intros st Hinv; cbn [assemble_lines].
  - by intros [= <-].
  - destruct (assemble_line ln st) as [st1| |] eqn:Hline; try discriminate.
    cbn [mbind result_bind]. intros Hrest.
    apply (IH st1); [by apply (assemble_line_inv ln st) | exact Hrest].
Qed.

Lemma halt_store_inv (m m1 : machine) :
  (store_ins I_HALT >> store_data 0) m = Ok m1 ->
  pos (_ptr m) <= _END /\
  m1 = with_tape (poke (pos (_ptr m)) (cell I_HALT 0) (tape m)) m.
Proof.
  intros H. pose proof (strict_store_then _ _ _ _ H) as Hp. split; [exact Hp|].
  unfold store_ins, store_data in H.
  rewrite (andthen_ok _ _ _ _ (store_ok _ m Hp)) in H.
  rewrite (store_twice (set_ins I_HALT) (set_data 0) m Hp) in H.
  by injection H as <-.
Qed.

Lemma assemble_tasm_inv (lines : list source_line) (m0 : machine) :
  assemble_tasm lines = Ok m0 ->
  exists labels m main_addr,
    assemble_lines lines asm_start = Ok (labels, m) /\
    asm_inv (labels, m) /\ pos (_ptr m) <= _END /\
    labels !! "main" = Some main_addr /\
    m0 = with_tape
           (poke _STK (set_data _STACK)
              (poke _DISP (set_data _OUT)
                 (poke (pos (_ptr m)) (cell I_HALT 0) (tape m))))
           (with_pos main_addr m).
Proof.
  unfold assemble_tasm. fold asm_start.
  destruct (assemble_lines lines asm_start) as [[labels m]| |] eqn:Hlines;
    try discriminate.
  cbn [mbind result_bind].
  destruct ((store_ins I_HALT >> store_data 0) m) as [m1| |] eqn:Hhalt;
    try discriminate.
  cbn [mbind result_bind].
  destruct (labels !! "main") as [main_addr|] eqn:Hmain; [|discriminate].
  intros [= <-].
  destruct (halt_store_inv m m1 Hhalt) as [Hp ->].
  exists labels, m, main_addr.
  split; [reflexivity|].
  split; [exact (assemble_lines_inv lines asm_start _ asm_inv_start Hlines)|].
  done.
Qed.

(** X9.  The assembler closes the program with a [HALT]: the cell under the
    emit pointer after the last line is in the code region and holds [HALT]
    with operand 0, every cell above it is all zero, and the loop stops when
    the pointer gets there. *)
Theorem assemble_tasm_trailing_halt (lines : list source_line) (m0 : machine) :
  assemble_tasm lines = Ok m0 ->
  exists labels m,
    assemble_lines lines asm_start = Ok (labels, m) /\
    in_code (pos (_ptr m)) /\
    ins (tape m0 !!! pos (_ptr m)) = I_HALT /\
    data (tape m0 !!! pos (_ptr m)) = 0 /\
    (forall c, pos (_ptr m) < c -> tape m0 !!! c = zero_block) /\
    step (goto (pos (_ptr m)) m0) = Halted (goto (pos (_ptr m)) m0).
Proof.
  intros Hasm.
  destruct (assemble_tasm_inv lines m0 Hasm)
    as (labels & m & main_addr & Hlines & Hinv & Hp & Hmain & ->).
  destruct Hinv as (Hlo & _ & Hlab & Hzero & _). simpl in *.
  exists labels, m. split; [exact Hlines|]. split; [by split|].
  assert (Hcell : poke _STK (set_data _STACK)
                    (poke _DISP (set_data _OUT)
                       (poke (pos (_ptr m)) (cell I_HALT 0) (tape m)))
                  !!! pos (_ptr m)
                  = cell I_HALT 0 (tape m !!! pos (_ptr m))).
  { rewrite !(poke_other _ (pos (_ptr m))) by (unfold_bounds; lia).
    apply poke_same. }
  split; [by rewrite Hcell|]. split; [by rewrite Hcell|].
  split.
  - intros c Hc. rewrite !poke_other by (unfold_bounds; lia).
    apply Hzero. by right.
  - unfold step. rewrite pos_goto, tape_goto, tape_with_tape, Hcell.
    cbn [cell data ins].
    rewrite (ltb_false_le _ _ Hp).
    rewrite (ltb_false_le _END 0) by (unfold _END; lia). reflexivity.
Qed.

Lemma assemble_tasm_trailing_halt_witness :
  exists m0 labels m,
    assemble_tasm recursion = Ok m0 /\
    assemble_lines recursion asm_start = Ok (labels, m) /\
    ins (tape m0 !!! pos (_ptr m)) = I_HALT.
Proof.
  assert (Hasm : exists m0, assemble_tasm recursion = Ok m0)
    by (eexists; vm_compute; reflexivity).
  destruct Hasm as [m0 Hasm].
  destruct (assemble_tasm_trailing_halt recursion m0 Hasm)
    as (labels & m & Hlines & _ & Hins & _).
  by exists m0, labels, m.
Defined.

(** ** Labels *)

Lemma is_char_eq (c : ascii) (n : N) : is_char c n = true -> c = ascii_of_N n.
Proof.
  unfold is_char. intros H. apply N.eqb_eq in H.
  rewrite <- H. symmetry. apply ascii_N_embedding.
Qed.

Lemma colon_token (token : string) (k : nat) :
  String.length token = S k ->
  is_char (char_at token k) 58 = true ->
  token = (String.substring 0 k token ++ ":")%string.
Proof.
  revert k. induction token as [|x rest IH]; intros k Hlen H; [discriminate Hlen|].
  injection Hlen as Hlen. destruct k as [|k].
  - destruct rest; [|discriminate Hlen].
    apply is_char_eq in H. change (x = ascii_of_N 58) in H. by subst x.
  - change (is_char (char_at rest k) 58 = true) in H.
    change (String x rest = String x (String.substring 0 k rest ++ ":"))%string.
    f_equal. by apply IH.
Qed.

(** A token that ends in a colon is its label followed by the colon. *)
Lemma label_token (token : string) :
  defines_label token = true ->
  token = (String.substring 0 (String.length token - 1) token ++ ":")%string.
Proof.
  unfold defines_label. intros H. apply andb_prop in H as [Hlen H].
  destruct (String.length token) as [|k] eqn:Hk; [discriminate Hlen|].
  rewrite Nat.sub_1_r in *. simpl Nat.pred in *. by apply colon_token.
Qed.

(** A line leaves the label table alone or adds the label it defines, at
    the emit pointer, when the label is new. *)
Lemma assemble_line_labels (ln : source_line) (labels labels' : gmap string N)
    (m m' : machine) :
  assemble_line ln (labels, m) = Ok (labels', m') ->
  labels' = labels \/
  exists label,
    line_ins ln = (label ++ ":")%string /\ labels !! label = None /\
    labels' = <[label := pos (_ptr m)]> labels.
Proof.
  unfold assemble_line.
  destruct (Nat.eqb (String.length (line_ins ln)) 0) eqn:Hlen;
    [intros [= <- <-]; by left|].
  destruct (_END <? pos (_ptr m)); [discriminate|].
  destruct (is_char _ 58) eqn:Hcolon.
  - destruct (labels !! _) eqn:Hfresh; [discriminate|]. intros [= <- <-].
    right. eexists. split; [|split; [exact Hfresh | reflexivity]].
    apply label_token. unfold defines_label. by rewrite Hlen, Hcolon.
  - destruct (first_operand labels (line_first ln)) as [[a1 deref_1]| |];
      try discriminate.
    cbn [mbind result_bind].
    destruct (is_char (char_at (line_second ln) 0) 34).
    + destruct (load_chars _ _ _ _ _ m) as [m1| |]; try discriminate.
      cbn [mbind result_bind]. intros [= <- <-]. by left.
    + destruct (second_operand (line_second ln)) as [a2 deref_2].
      destruct (load_instruction _ _ _ _ _ _ m) as [m1| |]; try discriminate.
      cbn [mbind result_bind]. intros [= <- <-]. by left.
Qed.

Lemma assemble_lines_app (l1 l2 : list source_line) (st : asm_state) :
  assemble_lines (l1 ++ l2) st = assemble_lines l1 st ≫= assemble_lines l2.
Proof.
  revert st. induction l1 as [|ln l1 IH]; intros st; [reflexivity|].
  cbn [app assemble_lines].
  destruct (assemble_line ln st) as [st1| |]; try reflexivity.
  cbn [mbind result_bind]. apply IH.
Qed.

(** A label no line defines stays out of the table. *)
Lemma label_stays_absent (label : string) (lines : list source_line)
    (labels labels' : gmap string N) (m m' : machine) :
  (forall ln, ln ∈ lines -> line_ins ln ≠ (label ++ ":")%string) ->
  labels !! label = None ->
  assemble_lines lines (labels, m) = Ok (labels', m') ->
  labels' !! label = None.
Proof.
  revert labels m. induction lines as [|ln lines IH]; intros labels m Hno Habs;
    cbn [assemble_lines].
  - by intros [= <- <-].
  - destruct (assemble_line ln (labels, m)) as [[labels1 m1]| |] eqn:Hline;
      try discriminate.
    cbn [mbind result_bind]. apply IH.
    + intros l Hl. apply Hno. by right.
    + destruct (assemble_line_labels _ _ _ _ _ Hline)
        as [-> | (l & Hins & _ & ->)]; [exact Habs|].
      rewrite lookup_insert_ne; [exact Habs|].
      intros ->. apply (Hno ln); [by left | exact Hins].
Qed.

(** A label in the table stays there. *)
Lemma label_stays (label : string) (lines : list source_line)
    (labels labels' : gmap string N) (m m' : machine) :
  is_Some (labels !! label) ->
  assemble_lines lines (labels, m) = Ok (labels', m') ->
  is_Some (labels' !! label).
Proof.
  revert labels m. induction lines as [|ln lines IH]; intros labels m Hin;
    cbn [assemble_lines].
  - by intros [= <- <-].
  - destruct (assemble_line ln (labels, m)) as [[labels1 m1]| |] eqn:Hline;
      try discriminate.
    cbn [mbind result_bind]. apply IH.
    destruct (assemble_line_labels _ _ _ _ _ Hline)
      as [-> | (l & _ & _ & ->)]; [exact Hin|].
    rewrite lookup_insert. case_decide; [done | exact Hin].
Qed.

(** Where the address of a label comes from: it was in the table at the
    start, or it is the emit pointer at the line that defines the label. *)
Lemma label_origin (label : string) (a : N) (lines : list source_line)
    (labels labels' : gmap string N) (m m' : machine) :
  assemble_lines lines (labels, m) = Ok (labels', m') ->
  labels' !! label = Some a ->
  labels !! label = Some a \/
  exists pre ln post labels_pre m_pre,
    lines = (pre ++ ln :: post)%list /\
    line_ins ln = (label ++ ":")%string /\
    assemble_lines pre (labels, m) = Ok (labels_pre, m_pre) /\
    a = pos (_ptr m_pre).
Proof.
  revert labels m. induction lines as [|ln lines IH]; intros labels m;
    cbn [assemble_lines].
  - intros [= <- <-] Ha. by left.
  - destruct (assemble_line ln (labels, m)) as [[labels1 m1]| |] eqn:Hline;
      try discriminate.
    cbn [mbind result_bind]. intros Hrest Ha.
    destruct (IH labels1 m1 Hrest Ha)
      as [Hin | (pre & l & post & lp & mp & -> & Hl & Hpre & ->)].
    + destruct (assemble_line_labels _ _ _ _ _ Hline)
        as [-> | (l & Hins & _ & ->)]; [by left|].
      destruct (decide (l = label)) as [-> | Hne].
      * right. exists [], ln, lines, labels, m.
        rewrite lookup_insert_eq in Hin. injection Hin as <-. done.
      * left. by rewrite lookup_insert_ne in Hin.
    + right. exists (ln :: pre), l, post, lp, mp.
      split; [reflexivity|]. split; [exact Hl|]. split; [|reflexivity].
      cbn [assemble_lines]. by rewrite Hline.
Qed.

(** X8.  After a successful assembly the pointer is at the address of
    [main]: the emit pointer at which the line [main:] was met, which lies
    inside the code region.  [DISP] holds 101000 and [STK] holds 100999;
    every other cell below the code region is all zero, the scratch is zero
    and nothing has been printed. *)
Theorem assemble_tasm_initial_state (lines : list source_line) (m0 : machine) :
  assemble_tasm lines = Ok m0 ->
  (exists pre ln post labels_pre m_pre,
     lines = (pre ++ ln :: post)%list /\ line_ins ln = "main:" /\
     assemble_lines pre asm_start = Ok (labels_pre, m_pre) /\
     pos (_ptr m0) = pos (_ptr m_pre)) /\
  in_code (pos (_ptr m0)) /\
  tape m0 !!! _DISP = mkBLOCK I_NONE _OUT 0 /\
  tape m0 !!! _STK = mkBLOCK I_NONE _STACK 0 /\
  (forall c, c < _MAIN -> c ≠ _DISP -> c ≠ _STK -> tape m0 !!! c = zero_block) /\
  ptr_data (_ptr m0) = 0 /\ ptr_dtype (_ptr m0) = 0 /\ stdout m0 = "".
Proof.
  intros Hasm.
  destruct (assemble_tasm_inv lines m0 Hasm)
    as (labels & m & main_addr & Hlines & Hinv & Hp & Hmain & ->).
  destruct Hinv as (Hlo & _ & Hlab & Hzero & Hd & Ht & Hs). simpl in *.
  split.
  { destruct (label_origin "main" main_addr lines _ _ _ _ Hlines Hmain)
      as [Hin | (pre & ln & post & lp & mp & Hsplit & Hln & Hpre & Haddr)].
    - by rewrite lookup_empty in Hin.
    - by exists pre, ln, post, lp, mp. }
  split; [exact (Hlab _ _ Hmain)|].
  split.
  { rewrite poke_other by (unfold _STK, _DISP; lia). rewrite poke_same.
    rewrite poke_other by (unfold_bounds; lia).
    rewrite Hzero by (unfold_bounds; lia). reflexivity. }
  split.
  { rewrite poke_same. rewrite !poke_other by (unfold_bounds; lia).
    rewrite Hzero by (unfold_bounds; lia). reflexivity. }
  split; [|done].
  intros c Hc Hc1 Hc2. rewrite !poke_other by (unfold_bounds; lia).
  apply Hzero. by left.
Qed.

Lemma assemble_tasm_initial_state_witness :
  exists m0, assemble_tasm recursion = Ok m0 /\ pos (_ptr m0) = _MAIN /\
    tape m0 !!! _DISP = mkBLOCK I_NONE _OUT 0.
Proof.
  assert (Hasm : exists m0, assemble_tasm recursion = Ok m0 /\ pos (_ptr m0) = _MAIN)
    by (eexists; split; vm_compute; reflexivity).
  destruct Hasm as (m0 & Hasm & Hpos).
  destruct (assemble_tasm_initial_state recursion m0 Hasm) as (_ & _ & Hdisp & _).
  exists m0. split; [exact Hasm|]. split; [exact Hpos | exact Hdisp].
Defined.

(** X10.  A program in which no line is the token [main:] never assembles:
    the table has no [main] at the end. *)
Theorem assemble_without_main (lines : list source_line) (m0 : machine) :
  (forall ln, ln ∈ lines -> line_ins ln ≠ "main:") ->
  assemble_tasm lines ≠ Ok m0.
Proof.
  intros Hno Hasm.
  destruct (assemble_tasm_inv lines m0 Hasm)
    as (labels & m & main_addr & Hlines & _ & _ & Hmain & _).
  unfold asm_start in Hlines.
  pose proof (label_stays_absent "main" lines ∅ labels _ m Hno
                (lookup_empty _) Hlines) as Habs.
  congruence.
Qed.

Lemma assemble_without_main_witness :
  ~ exists m0, assemble_tasm sub_then_hlt = Ok m0.
Proof.
  intros [m0 Hm0]. revert Hm0. apply assemble_without_main.
  intros ln Hin. apply list_elem_of_In in Hin. simpl in Hin.
  destruct Hin as [<- | [<- | []]]; discriminate.
Defined.

(** X11.  A program that defines the same label on two lines never
    assembles: when the second of them is reached the label is in the
    table. *)
Theorem assemble_duplicate_label (pre mid post : list source_line)
    (l1 l2 : source_line) (st' : asm_state) :
  defines_label (line_ins l1) = true ->
  line_ins l2 = line_ins l1 ->
  assemble_lines (pre ++ l1 :: mid ++ l2 :: post) asm_start ≠ Ok st'.
Proof.
  intros Hdef Hsame Hasm.
  rewrite assemble_lines_app in Hasm.
  destruct (assemble_lines pre asm_start) as [[labels0 m0]| |]; try discriminate.
  cbn [mbind result_bind assemble_lines] in Hasm.
  destruct (assemble_line l1 (labels0, m0)) as [[labels1 m1]| |] eqn:Hl1;
    try discriminate.
  cbn [mbind result_bind] in Hasm.
  rewrite assemble_lines_app in Hasm.
  destruct (assemble_lines mid (labels1, m1)) as [[labels2 m2]| |] eqn:Hmid;
    try discriminate.
  cbn [mbind result_bind assemble_lines] in Hasm.
  destruct (assemble_line l2 (labels2, m2)) as [[labels3 m3]| |] eqn:Hl2;
    try discriminate.
  set (label := String.substring 0 (String.length (line_ins l1) - 1) (line_ins l1)).
  assert (Hin1 : is_Some (labels1 !! label)).
  { revert Hl1. unfold assemble_line.
    unfold defines_label in Hdef. apply andb_prop in Hdef as [Hlen Hcolon].
    apply negb_true_iff in Hlen. rewrite Hlen, Hcolon.
    destruct (_END <? pos (_ptr m0)); [discriminate|].
    fold label. destruct (labels0 !! label); [discriminate|].
    intros [= <- <-]. rewrite lookup_insert_eq. by eexists. }
  pose proof (label_stays label mid labels1 labels2 m1 m2 Hin1 Hmid) as [a Hin2].
  revert Hl2. unfold assemble_line. rewrite Hsame.
  unfold defines_label in Hdef. apply andb_prop in Hdef as [Hlen Hcolon].
  apply negb_true_iff in Hlen. rewrite Hlen, Hcolon.
  destruct (_END <? pos (_ptr m2)); [discriminate|].
  fold label. rewrite Hin2. discriminate.
Qed.

Lemma assemble_duplicate_label_witness :
  ~ exists st', assemble_lines twice_main asm_start = Ok st'.
Proof.
  intros [st' Hst']. revert Hst'.
  apply (assemble_duplicate_label [] [mkLine "hlt" "" ""] []
           (mkLine "main:" "" "") (mkLine "main:" "" "")); reflexivity.
Defined.

Lemma first_operand_label (labels : gmap string N) (first : string) :
  names_label first = true ->
  first_operand labels first
  = match labels !! first with
    | Some a => Ok (Some a, false)
    | None => Exit UndefinedLabel
    end.
Proof.
  unfold names_label, first_operand. intros H.
  apply andb_prop in H as [H Hlen]. apply andb_prop in H as [H1 H2].
  apply negb_true_iff in H1, H2. by rewrite H1, H2, Hlen.
Qed.

(** X12.  Labels must be defined above their use: an instruction whose
    first operand names a label that no earlier line defines stops the
    assembly, also when a later line defines the label. *)
Theorem assemble_forward_reference (pre post : list source_line)
    (ln : source_line) (st' : asm_state) :
  (forall l, l ∈ pre -> line_ins l ≠ (line_first ln ++ ":")%string) ->
  defines_label (line_ins ln) = false ->
  String.length (line_ins ln) ≠ 0%nat ->
  names_label (line_first ln) = true ->
  assemble_lines (pre ++ ln :: post) asm_start ≠ Ok st'.
Proof.
  intros Hno Hdef Hlen Hname Hasm.
  rewrite assemble_lines_app in Hasm.
  destruct (assemble_lines pre asm_start) as [[labels m]| |] eqn:Hpre;
    try discriminate.
  cbn [mbind result_bind assemble_lines] in Hasm.
  unfold asm_start in Hpre.
  pose proof (label_stays_absent _ pre ∅ labels _ m Hno (lookup_empty _) Hpre)
    as Habs.
  destruct (assemble_line ln (labels, m)) as [st1| |] eqn:Hline;
    try discriminate.
  revert Hline. unfold assemble_line.
  apply Nat.eqb_neq in Hlen. rewrite Hlen.
  unfold defines_label in Hdef. rewrite Hlen in Hdef. simpl in Hdef. rewrite Hdef.
  destruct (_END <? pos (_ptr m)); [discriminate|].
  rewrite (first_operand_label labels _ Hname), Habs. discriminate.
Qed.

Lemma assemble_forward_reference_witness :
  ~ exists st', assemble_lines forward_jump asm_start = Ok st'.
Proof.
  intros [st' Hst']. revert Hst'.
  apply (assemble_forward_reference [mkLine "main:" "" ""]
           [mkLine "done:" "" ""; mkLine "hlt" "" ""] (mkLine "jmp" "done" ""));
    try reflexivity; try discriminate.
  intros l Hl. apply list_elem_of_In in Hl. simpl in Hl.
  destruct Hl as [<- | []]. discriminate.
Defined.

(** X13.  [main] goes on to assemble exactly when a second argument is
    there and it is a non-empty name followed by [.tasm]. *)
Theorem arguments_accepted_iff (argv : list string) :
  arguments_accepted argv = true <->
  exists prog base rest,
    base ≠ EmptyString /\ argv = prog :: (base ++ ".tasm")%string :: rest.
Proof.
  unfold arguments_accepted. split.
  - destruct argv as [|prog [|file_name rest]]; try discriminate.
    intros H. apply has_extension_spec in H as [_ (base & Hbase & ->)].
    by exists prog, base, rest.
  - intros (prog & base & rest & Hbase & ->).
    apply has_extension_spec. split; [reflexivity|]. by exists base.
Qed.

Lemma arguments_accepted_iff_witness :
  arguments_accepted ["tasm"; "fib.tasm"; "-memdump"] = true.
Proof.
  apply arguments_accepted_iff. exists "tasm", "fib", ["-memdump"].
  split; [discriminate | reflexivity].
Defined.

(** ** More on the display flush *)

Lemma display_fuel_eq : N.of_nat display_fuel = DISPLAY_SIZE.
Proof. vm_compute. reflexivity. Qed.

(** Fuel that reaches [_OUT_END] is never used up: the loop stops on its
    own condition. *)
Lemma output_loop_enough (fuel fuel' : nat) (t : gmap N BLOCK) (cursor : N)
    (is_escaped : bool) (out : string) :
  _OUT_END <= cursor + N.of_nat fuel ->
  _OUT_END <= cursor + N.of_nat fuel' ->
  output_loop fuel t cursor is_escaped out = output_loop fuel' t cursor is_escaped out.
Proof.
  revert fuel' cursor is_escaped out.
  induction fuel as [|fuel IH]; intros fuel' cursor is_escaped out H H'.
  - destruct fuel' as [|fuel']; [reflexivity|]. cbn [output_loop].
    rewrite (ltb_false_le cursor _OUT_END) by lia. reflexivity.
  - destruct fuel' as [|fuel'].
    + cbn [output_loop]. rewrite (ltb_false_le cursor _OUT_END) by lia. reflexivity.
    + cbn [output_loop].
      destruct (cursor <? _OUT_END) eqn:Hc; [|reflexivity].
      cbn [andb].
      repeat match goal with
        | |- context [if ?b then _ else _] => destruct b
        end;
        try reflexivity; apply IH; lia.
Qed.

(** X14.  The fuel of the model's display loop is never what stops it: any
    larger amount of fuel prints the same text. *)
Theorem display_fuel_suffices (fuel : nat) (t : gmap N BLOCK) (out : string) :
  (display_fuel <= fuel)%nat ->
  output_loop fuel t _OUT false out = output_loop display_fuel t _OUT false out.
Proof.
  intros Hle. pose proof display_fuel_eq as Heq.
  apply output_loop_enough; unfold_bounds; unfold DISPLAY_SIZE in Heq; lia.
Qed.

Lemma display_fuel_suffices_witness :
  output_loop (S display_fuel) (tape out_state) _OUT false ""
  = output_loop display_fuel (tape out_state) _OUT false "".
Proof. apply display_fuel_suffices. lia. Defined.

(** The loop reads only [DISP] and the [data] and [dtype] of the cells from
    the cursor up to [DISP] and [_OUT_END]. *)
Lemma output_loop_reads (fuel : nat) (t t' : gmap N BLOCK) (cursor : N)
    (is_escaped : bool) (out : string) :
  data (t' !!! _DISP) = data (t !!! _DISP) ->
  (forall c, cursor <= c -> c < _OUT_END -> c < data (t !!! _DISP) ->
     data (t' !!! c) = data (t !!! c) /\ dtype (t' !!! c) = dtype (t !!! c)) ->
  output_loop fuel t' cursor is_escaped out = output_loop fuel t cursor is_escaped out.
Proof.
  intros Hdisp. revert cursor is_escaped out.
  induction fuel as [|fuel IH]; intros cursor is_escaped out Hcells; [reflexivity|].
  cbn [output_loop]. rewrite Hdisp.
  destruct (cursor <? _OUT_END) eqn:H1; [|reflexivity].
  destruct (cursor <? data (t !!! _DISP)) eqn:H2; [|reflexivity].
  cbn [andb]. apply N.ltb_lt in H1, H2.
  destruct (Hcells cursor ltac:(lia) H1 H2) as [-> ->].
  assert (Hnext : forall c, cursor + 1 <= c -> c < _OUT_END ->
            c < data (t !!! _DISP) ->
            data (t' !!! c) = data (t !!! c) /\ dtype (t' !!! c) = dtype (t !!! c)).
  { intros c Hc. apply Hcells. lia. }
  repeat match goal with
    | |- context [if ?b then _ else _] => destruct b
    end;
    by apply IH.
Qed.

(** X15.  What [OUT] prints is determined by [DISP] and by the [data] and
    [dtype] of the display cells from 101000 up to, but not including, [DISP]
    and 200999: the last display cell and everything outside the display is
    never printed. *)
Theorem display_text_reads (t t' : gmap N BLOCK) :
  data (t' !!! _DISP) = data (t !!! _DISP) ->
  (forall c, _OUT <= c -> c < _OUT_END -> c < data (t !!! _DISP) ->
     data (t' !!! c) = data (t !!! c) /\ dtype (t' !!! c) = dtype (t !!! c)) ->
  display_text t' = display_text t.
Proof. intros Hdisp Hcells. unfold display_text. by apply output_loop_reads. Qed.

Lemma display_text_reads_witness :
  display_text (poke _OUT_END (set_data 7) (tape out_state))
  = display_text (tape out_state).
Proof.
  apply display_text_reads.
  - rewrite poke_other by (vm_compute; discriminate). reflexivity.
  - intros c _ Hc _. rewrite poke_other by lia. done.
Defined.

(** X16.  With [DISP] at the base of the display or below, [OUT] prints
    nothing. *)
Theorem display_text_empty (t : gmap N BLOCK) :
  data (t !!! _DISP) <= _OUT -> display_text t = "".
Proof.
  intros H. unfold display_text.
  destruct display_fuel as [|fuel]; [reflexivity|].
  cbn [output_loop]. rewrite (ltb_false_le _OUT (data (t !!! _DISP)) H).
  by rewrite andb_false_r.
Qed.

Lemma display_text_empty_witness : display_text (tape boot) = "".
Proof. apply display_text_empty. vm_compute. discriminate. Defined.

(** ** More on the loop of [run] *)

Lemma run_running (fuel : nat) (m m' : machine) :
  step m = Running m' -> run (S fuel) m = run fuel m'.
Proof. intros H. by rewrite run_step, H. Qed.

(** X17.  Standard output only grows, and only [OUT] prints: a round that
    executes any other primitive leaves the text as it is. *)
Theorem stdout_append_only (m m' : machine) :
  step m = Running m' ->
  (exists text, stdout m' = (stdout m ++ text)%string) /\
  (ins (tape m !!! pos (_ptr m)) ≠ I_OUT -> stdout m' = stdout m).
Proof.
  unfold step.
  destruct (_END <? pos (_ptr m)); [discriminate|].
  destruct (_END <? data (tape m !!! pos (_ptr m))); [discriminate|].
  destruct (ins (tape m !!! pos (_ptr m)));
    repeat match goal with
    | |- context [if ?b then _ else _] => destruct b
    end;
    intros [= <-];
    try (split; [exists EmptyString; by rewrite string_app_nil_r | done]).
  split; [|done]. eexists. apply stdout_output.
Qed.

Lemma stdout_append_only_witness :
  exists m', step add_state = Running m' /\ stdout m' = stdout add_state.
Proof.
  eexists. split; [vm_compute; reflexivity|].
  eapply (stdout_append_only add_state); [vm_compute; reflexivity | discriminate].
Defined.

(** X18.  Two [NOT]s in a row on the same cell leave 0 where the cell held
    0 and 1 where it held anything else: the cell comes back unchanged
    exactly when it held 0 or 1. *)
Theorem not_twice (m : machine) (a : N) :
  let p := pos (_ptr m) in
  p + 1 <= _END -> a <= _END -> a ≠ p + 1 ->
  ins (tape m !!! p) = I_NOT -> data (tape m !!! p) = a ->
  ins (tape m !!! (p + 1)) = I_NOT -> data (tape m !!! (p + 1)) = a ->
  exists m2,
    run 2 m = Running m2 /\
    data (tape m2 !!! a) = (if data (tape m !!! a) =? 0 then 0 else 1) /\
    pos (_ptr m2) = p + 2.
Proof.
  intros p. subst p. intros Hp Ha Hne Hi1 Hd1 Hi2 Hd2.
  set (m1 := next (update_data a (fun d => flag (d =? 0)) m)).
  assert (Hs1 : step m = Running m1).
  { unfold step. rewrite Hd1, Hi1.
    rewrite (ltb_false_le _ (pos (_ptr m))), (ltb_false_le _ a) by lia.
    reflexivity. }
  assert (Hp1 : pos (_ptr m1) = pos (_ptr m) + 1).
  { unfold m1. rewrite pos_next. apply wrap_small. unfold_bounds. simpl. lia. }
  assert (Hcell : tape m1 !!! (pos (_ptr m) + 1) = tape m !!! (pos (_ptr m) + 1)).
  { unfold m1. autorewrite with machine. by apply poke_other. }
  set (m2 := next (update_data a (fun d => flag (d =? 0)) m1)).
  assert (Hs2 : step m1 = Running m2).
  { unfold step. rewrite Hp1, Hcell, Hd2, Hi2.
    rewrite (ltb_false_le _ (pos (_ptr m) + 1)), (ltb_false_le _ a) by lia.
    reflexivity. }
  exists m2. split.
  { rewrite (run_running _ _ _ Hs1), (run_running _ _ _ Hs2). reflexivity. }
  split.
  - unfold m2, m1. autorewrite with machine. rewrite !poke_same.
    cbn [set_data data]. by destruct (data (tape m !!! a) =? 0).
  - unfold m2. rewrite pos_next. autorewrite with machine. rewrite Hp1.
    rewrite wrap_small by (unfold_bounds; lia). lia.
Qed.

Lemma not_twice_witness :
  exists m2, run 2 not_state = Running m2 /\ data (tape m2 !!! 5) = 1.
Proof.
  destruct (not_twice not_state 5) as (m2 & Hrun & Hdata & _);
    try (vm_compute; discriminate); try reflexivity.
  by exists m2.
Defined.

(** X19.  A [CALL] followed at once by the [RET] of the callee comes back
    to the cell behind the [CALL] with [STK] as it was before; only the stack
    slot used has changed. *)
Theorem call_then_ret (m : machine) :
  let p := pos (_ptr m) in
  let t := data (tape m !!! p) in
  let STK := data (tape m !!! _STK) in
  p <= _END -> t <= _END ->
  ins (tape m !!! p) = I_CALL ->
  _STACK_END <= STK <= _STACK -> in_code t ->
  ins (tape m !!! t) = I_RET -> data (tape m !!! t) <= _END ->
  exists m2,
    run 2 m = Running m2 /\
    pos (_ptr m2) = p + 1 /\
    data (tape m2 !!! _STK) = STK /\
    forall c, c ≠ STK -> tape m2 !!! c = tape m !!! c.
Proof.
  intros p t STK. subst p t STK.
  intros Hp Ht Hi [Hlo Hhi] [Htlo Hthi] Hret Hretd.
  set (p := pos (_ptr m)) in *. set (t := data (tape m !!! p)) in *.
  set (STK := data (tape m !!! _STK)) in *.
  assert (HneS : STK ≠ _STK) by (unfold_bounds; lia).
  assert (Hdown : wrap (STK + DWORD_MOD - 1) = STK - 1).
  { replace (STK + DWORD_MOD - 1) with (STK - 1 + 1 * DWORD_MOD)
      by (unfold_bounds; lia).
    unfold wrap. rewrite N.Div0.mod_add. apply N.mod_small. unfold_bounds. lia. }
  assert (Hup : wrap (STK - 1 + 1) = STK).
  { replace (STK - 1 + 1) with STK by (unfold_bounds; lia).
    apply wrap_small. unfold_bounds. lia. }
  set (m1 := goto t (update_data _STK (fun d => wrap (d + DWORD_MOD - 1))
                       (update_data STK (fun _ => wrap (p + 1)) m))).
  assert (Hs1 : step m = Running m1).
  { unfold step. fold p t STK. rewrite Hi.
    rewrite (ltb_false_le _ p), (ltb_false_le _ t) by lia.
    rewrite (ltb_false_le STK _STACK_END) by lia.
    rewrite (ltb_false_le _END STK) by (unfold_bounds; lia). reflexivity. }
  assert (Hreg : tape m1 !!! _STK = set_data (STK - 1) (tape m !!! _STK)).
  { unfold m1. autorewrite with machine. rewrite poke_same.
    rewrite poke_other by exact HneS. fold STK. by rewrite Hdown. }
  assert (Hslot : tape m1 !!! STK = set_data (p + 1) (tape m !!! STK)).
  { unfold m1. autorewrite with machine.
    rewrite poke_other by congruence. rewrite poke_same.
    by rewrite wrap_small by (unfold_bounds; lia). }
  assert (Hcell : tape m1 !!! t = tape m !!! t).
  { unfold m1. autorewrite with machine.
    rewrite !poke_other; [reflexivity | |]; unfold_bounds; lia. }
  set (m2 := goto (p + 1) (update_data _STK (fun d => wrap (d + 1)) m1)).
  assert (Hs2 : step m1 = Running m2).
  { unfold step. change (pos (_ptr m1)) with t. rewrite Hcell, Hret.
    rewrite (ltb_false_le _ t), (ltb_false_le _ (data (tape m !!! t))) by lia.
    autorewrite with machine. rewrite poke_same, Hreg. cbn [set_data data].
    rewrite Hup. rewrite (ltb_false_le _ STK) by (unfold_bounds; lia).
    rewrite poke_other by congruence. rewrite Hslot. reflexivity. }
  exists m2. split.
  { rewrite (run_running _ _ _ Hs1), (run_running _ _ _ Hs2). reflexivity. }
  split; [reflexivity|]. unfold m2. autorewrite with machine. split.
  - rewrite poke_same, Hreg. cbn [set_data data]. exact Hup.
  - intros c Hc. destruct (decide (c = _STK)) as [-> | Hne].
    + rewrite poke_same, Hreg. cbn [set_data data ins dtype]. rewrite Hup.
      unfold STK. by destruct (tape m !!! _STK).
    + rewrite poke_other by congruence. unfold m1. autorewrite with machine.
      rewrite !poke_other by congruence. reflexivity.
Qed.

Lemma call_then_ret_witness :
  exists m2, run 2 call_ret_state = Running m2 /\
    pos (_ptr m2) = _MAIN + 1 /\ data (tape m2 !!! _STK) = _STACK.
Proof.
  destruct (call_then_ret call_ret_state) as (m2 & Hrun & Hpos & Hstk & _);
    try (vm_compute; discriminate); try reflexivity;
    try (split; vm_compute; discriminate).
  by exists m2.
Defined.

(** X20.  A [RET] with an empty stack is not a fault: [STK] moves up from
    100999 to 101000, the base of the display, and the pointer is set to
    whatever the first display cell holds. *)
Theorem ret_on_empty_stack (m : machine) :
  let p := pos (_ptr m) in
  p <= _END -> data (tape m !!! p) <= _END ->
  ins (tape m !!! p) = I_RET ->
  data (tape m !!! _STK) = _STACK ->
  exists m',
    step m = Running m' /\
    data (tape m' !!! _STK) = _OUT /\
    pos (_ptr m') = data (tape m !!! _OUT).
Proof.
  intros p. subst p. intros Hp Ha Hi Hstk.
  eexists. split.
  - fetch Hp Ha. rewrite Hi. autorewrite with machine.
    rewrite poke_same. cbn [set_data data]. rewrite Hstk.
    change (wrap (_STACK + 1)) with _OUT.
    change (_END <? _OUT) with false. reflexivity.
  - autorewrite with machine. split.
    + rewrite poke_same. cbn [set_data data]. by rewrite Hstk.
    + rewrite poke_other by (unfold_bounds; lia). reflexivity.
Qed.

Lemma ret_on_empty_stack_witness :
  exists m', step ret_state = Running m' /\ pos (_ptr m') = 201007.
Proof.
  destruct (ret_on_empty_stack ret_state) as (m' & Hstep & _ & Hpos);
    try (vm_compute; discriminate); try reflexivity.
  by exists m'.
Defined.

(** ** Running the lowerings *)

Lemma run_more (n k : nat) (m m' : machine) :
  run n m = Running m' -> run (n + k) m = run k m'.
Proof.
  revert m. induction n as [|n IH]; intros m; cbn [run Nat.add].
  - by intros [= ->].
  - destruct (step m) as [m1| | |]; try discriminate. apply IH.
Qed.

Lemma exec_READ (m : machine) (a : N) :
  pos (_ptr m) <= _END -> a <= _END ->
  ins (tape m !!! pos (_ptr m)) = I_READ -> data (tape m !!! pos (_ptr m)) = a ->
  step m = Running (next (read a m)).
Proof. intros Hp Ha Hi Hd. unfold step. rewrite Hd. fetch Hp Ha. by rewrite Hi. Qed.

Lemma exec_WRITE (m : machine) (a : N) :
  pos (_ptr m) <= _END -> a <= _END ->
  ins (tape m !!! pos (_ptr m)) = I_WRITE -> data (tape m !!! pos (_ptr m)) = a ->
  step m = Running (next (written a m)).
Proof. intros Hp Ha Hi Hd. unfold step. rewrite Hd. fetch Hp Ha. by rewrite Hi. Qed.

Lemma pos_next_small (m : machine) :
  pos (_ptr m) <= _END -> pos (_ptr (next m)) = pos (_ptr m) + 1.
Proof. intros H. rewrite pos_next. apply wrap_small. unfold_bounds. lia. Qed.

Lemma ptr_written (a : N) (m : machine) : _ptr (written a m) = _ptr m.
Proof. unfold written. by destruct (_ && _). Qed.

(** The destination of a [WRITE] other than [DISP] gets the scratch. *)
Lemma tape_written_same (a : N) (m : machine) :
  a ≠ _DISP ->
  tape (written a m) !!! a
  = mkBLOCK (ins (tape m !!! a)) (ptr_data (_ptr m)) (ptr_dtype (_ptr m)).
Proof.
  intros Hne. unfold written.
  destruct (_ && _); autorewrite with machine;
    rewrite ?(poke_other _DISP a) by congruence;
    rewrite poke_same; cbn [set_dtype]; by rewrite poke_same.
Qed.

Lemma tape_written_other (a c : N) (m : machine) :
  c ≠ a -> c ≠ _DISP -> tape (written a m) !!! c = tape m !!! c.
Proof.
  intros H1 H2. unfold written.
  destruct (_ && _); autorewrite with machine;
    rewrite !poke_other by congruence; reflexivity.
Qed.

(** A [WRITE] above the display leaves [DISP] alone. *)
Lemma tape_written_code (a c : N) (m : machine) :
  _OUT_END < a -> c ≠ a -> tape (written a m) !!! c = tape m !!! c.
Proof.
  intros Ha Hc. unfold written.
  rewrite (proj2 (N.leb_gt a _OUT_END) Ha), andb_false_r.
  autorewrite with machine. rewrite !poke_other by congruence. reflexivity.
Qed.

Lemma stored_other (dst v : N) : dst ≠ _DISP -> stored dst v = v.
Proof.
  intros Hne. unfold stored.
  by rewrite (proj2 (N.eqb_neq dst _DISP) Hne).
Qed.

(** The destination of any [WRITE], [DISP] included. *)
Lemma tape_written_dst (a : N) (m : machine) :
  tape (written a m) !!! a
  = mkBLOCK (ins (tape m !!! a)) (stored a (ptr_data (_ptr m)))
      (ptr_dtype (_ptr m)).
Proof.
  destruct (decide (a = _DISP)) as [-> | Hne].
  - unfold written, stored. autorewrite with machine.
    rewrite !poke_same. cbn [set_dtype set_data data].
    rewrite N.eqb_refl.
    replace (_DISP <=? _OUT_END) with true by reflexivity.
    rewrite andb_true_r, andb_true_l.
    destruct (ptr_data (_ptr m) <=? _DISP); autorewrite with machine;
      rewrite !poke_same; reflexivity.
  - rewrite tape_written_same, stored_other by exact Hne. reflexivity.
Qed.

(** A [READ] of [src] followed by a [WRITE] to [dst]. *)
Lemma run_read_write (s : machine) (src dst : N) :
  let p := pos (_ptr s) in
  p + 1 <= _END -> src <= _END -> dst <= _END ->
  ins (tape s !!! p) = I_READ -> data (tape s !!! p) = src ->
  ins (tape s !!! (p + 1)) = I_WRITE -> data (tape s !!! (p + 1)) = dst ->
  exists s2,
    run 2 s = Running s2 /\ pos (_ptr s2) = p + 2 /\
    data (tape s2 !!! dst) = stored dst (data (tape s !!! src)) /\
    dtype (tape s2 !!! dst) = dtype (tape s !!! src) /\
    ins (tape s2 !!! dst) = ins (tape s !!! dst) /\
    forall c, c ≠ dst -> c ≠ _DISP -> tape s2 !!! c = tape s !!! c.
Proof.
  intros p. subst p. intros Hp Hsrc Hdst Hi0 Hd0 Hi1 Hd1.
  assert (Hs1 : step s = Running (next (read src s)))
    by (apply exec_READ; [lia | done..]).
  assert (Hp1 : pos (_ptr (next (read src s))) = pos (_ptr s) + 1)
    by (apply (pos_next_small (read src s)); simpl; lia).
  assert (Hs2 : step (next (read src s))
                = Running (next (written dst (next (read src s))))).
  { apply exec_WRITE; rewrite ?Hp1; [lia | done..]. }
  exists (next (written dst (next (read src s)))).
  split.
  { rewrite (run_running _ _ _ Hs1), (run_running _ _ _ Hs2). reflexivity. }
  split.
  { rewrite pos_next, ptr_written, Hp1.
    rewrite wrap_small by (unfold_bounds; lia). lia. }
  rewrite tape_next, tape_written_dst.
  repeat split.
  intros c Hc1 Hc2. by rewrite tape_written_other.
Qed.

(** The two cells of a dereference prologue, run: the cell [k] behind the
    [WRITE] gets the [data] and [dtype] of the cell at [x]. *)
Lemma run_prologue (s : machine) (x k : N) :
  let p := pos (_ptr s) in
  in_code p -> p + 1 + k <= _END -> x <= _END ->
  ins (tape s !!! p) = I_READ -> data (tape s !!! p) = x ->
  ins (tape s !!! (p + 1)) = I_WRITE -> data (tape s !!! (p + 1)) = p + 1 + k ->
  exists s2,
    run 2 s = Running s2 /\ pos (_ptr s2) = p + 2 /\
    tape s2 !!! (p + 1 + k)
    = mkBLOCK (ins (tape s !!! (p + 1 + k))) (data (tape s !!! x))
        (dtype (tape s !!! x)) /\
    forall c, c ≠ p + 1 + k -> tape s2 !!! c = tape s !!! c.
Proof.
  intros p. subst p. intros [Hlo Hhi] Hfit Hx Hi0 Hd0 Hi1 Hd1.
  set (t := pos (_ptr s) + 1 + k) in *.
  assert (Hs1 : step s = Running (next (read x s)))
    by (apply exec_READ; [lia | done..]).
  assert (Hp1 : pos (_ptr (next (read x s))) = pos (_ptr s) + 1)
    by (apply (pos_next_small (read x s)); simpl; lia).
  assert (Hs2 : step (next (read x s))
                = Running (next (written t (next (read x s))))).
  { apply exec_WRITE; rewrite ?Hp1; [lia | unfold t; lia | done..]. }
  exists (next (written t (next (read x s)))).
  split.
  { rewrite (run_running _ _ _ Hs1), (run_running _ _ _ Hs2). reflexivity. }
  split.
  { rewrite pos_next, ptr_written, Hp1.
    rewrite wrap_small by (unfold_bounds; lia). lia. }
  rewrite tape_next. split.
  - rewrite tape_written_same by (unfold t; unfold_bounds; lia). reflexivity.
  - intros c Hc.
    rewrite tape_written_code; [reflexivity | unfold t; unfold_bounds; lia | exact Hc].
Qed.

Lemma skip_andthen (a : action) (m : machine) : (skip >> a) m = a m.
Proof. reflexivity. Qed.

(** The cells [load_binary] emits, for each mix of bracketed operands. *)
Lemma load_binary_cells (deref_1 deref_2 : bool) (i : INSTRUCTION) (a1 a2 : N)
    (m : machine) :
  let p := pos (_ptr m) in
  let q := p + deref_size deref_2 + deref_size deref_1 in
  q + 1 <= _END ->
  exists m1,
    load_binary deref_1 deref_2 i (Some a1) (Some a2) m = Ok m1 /\
    (forall c, c < p -> tape m1 !!! c = tape m !!! c) /\
    ins (tape m1 !!! q) = I_READ /\ data (tape m1 !!! q) = a2 /\
    ins (tape m1 !!! (q + 1)) = i /\ data (tape m1 !!! (q + 1)) = a1 /\
    (deref_2 = true ->
       ins (tape m1 !!! p) = I_READ /\ data (tape m1 !!! p) = a2 /\
       ins (tape m1 !!! (p + 1)) = I_WRITE /\
       data (tape m1 !!! (p + 1)) = q) /\
    (deref_1 = true ->
       ins (tape m1 !!! (q - 2)) = I_READ /\ data (tape m1 !!! (q - 2)) = a1 /\
       ins (tape m1 !!! (q - 1)) = I_WRITE /\
       data (tape m1 !!! (q - 1)) = q + 1).
Proof.
  intros p q Hfit. subst q. unfold load_binary.
  destruct deref_2, deref_1; unfold deref_size in *; cbn [when].
  - (* both bracketed *)
    rewrite (andthen_ok _ _ _ _ (load_deref_ok a2 3 m ltac:(fold p; lia))).
    set (m2 := placed _ (placed (cell I_READ a2) m)).
    assert (Hp2 : pos (_ptr m2) = p + 2) by (unfold m2; rewrite !pos_placed; fold p; lia).
    rewrite (andthen_ok _ _ _ _ (load_deref_ok a1 2 m2 ltac:(rewrite Hp2; lia))).
    set (m4 := placed _ (placed (cell I_READ a1) m2)).
    assert (Hp4 : pos (_ptr m4) = p + 4) by (unfold m4; rewrite !pos_placed, Hp2; lia).
    rewrite (andthen_ok _ _ _ _ (emit_ok I_READ a2 m4 ltac:(rewrite Hp4; lia))).
    rewrite (emit_ok i a1) by (rewrite pos_placed, Hp4; lia).
    eexists. split; [reflexivity|].
    rewrite !tape_placed, !pos_placed. unfold m4. rewrite !tape_placed, !pos_placed.
    rewrite Hp2. unfold m2. rewrite !tape_placed, !pos_placed. fold p.
    replace (p + 2 + 2) with (p + 4) by lia.
    replace (p + 4 - 2) with (p + 2) by lia.
    replace (p + 4 - 1) with (p + 2 + 1) by lia.
    replace (p + 1 + 3) with (p + 4) by lia.
    replace (p + 2 + 1 + 2) with (p + 4 + 1) by lia.
    split. { intros c Hc. rewrite !poke_other by lia. reflexivity. }
    repeat split; repeat (rewrite poke_lookup; case_decide; try lia);
      reflexivity.
  - (* second operand bracketed *)
    rewrite (andthen_ok _ _ _ _ (load_deref_ok a2 1 m ltac:(fold p; lia))).
    set (m2 := placed _ (placed (cell I_READ a2) m)).
    assert (Hp2 : pos (_ptr m2) = p + 2) by (unfold m2; rewrite !pos_placed; fold p; lia).
    rewrite skip_andthen.
    rewrite (andthen_ok _ _ _ _ (emit_ok I_READ a2 m2 ltac:(rewrite Hp2; lia))).
    rewrite (emit_ok i a1) by (rewrite pos_placed, Hp2; lia).
    eexists. split; [reflexivity|].
    rewrite !tape_placed, !pos_placed, Hp2. unfold m2.
    rewrite !tape_placed, !pos_placed. fold p.
    replace (p + 2 + 0) with (p + 2) by lia.
    replace (p + 1 + 1) with (p + 2) by lia.
    split. { intros c Hc. rewrite !poke_other by lia. reflexivity. }
    repeat split; try discriminate;
      repeat (rewrite poke_lookup; case_decide; try lia);
      reflexivity.
  - (* first operand bracketed *)
    rewrite skip_andthen.
    rewrite (andthen_ok _ _ _ _ (load_deref_ok a1 2 m ltac:(fold p; lia))).
    set (m2 := placed _ (placed (cell I_READ a1) m)).
    assert (Hp2 : pos (_ptr m2) = p + 2) by (unfold m2; rewrite !pos_placed; fold p; lia).
    rewrite (andthen_ok _ _ _ _ (emit_ok I_READ a2 m2 ltac:(rewrite Hp2; lia))).
    rewrite (emit_ok i a1) by (rewrite pos_placed, Hp2; lia).
    eexists. split; [reflexivity|].
    rewrite !tape_placed, !pos_placed, Hp2. unfold m2.
    rewrite !tape_placed, !pos_placed. fold p.
    replace (p + 0 + 2) with (p + 2) by lia.
    replace (p + 2 - 2) with p by lia.
    replace (p + 2 - 1) with (p + 1) by lia.
    replace (p + 1 + 2) with (p + 2 + 1) by lia.
    split. { intros c Hc. rewrite !poke_other by lia. reflexivity. }
    repeat split; try discriminate;
      repeat (rewrite poke_lookup; case_decide; try lia);
      reflexivity.
  - (* both direct *)
    rewrite !skip_andthen.
    rewrite (andthen_ok _ _ _ _ (emit_ok I_READ a2 m ltac:(fold p; lia))).
    rewrite (emit_ok i a1) by (rewrite pos_placed; fold p; lia).
    eexists. split; [reflexivity|].
    rewrite !tape_placed, !pos_placed. fold p.
    replace (p + 0 + 0) with p by lia.
    split. { intros c Hc. rewrite !poke_other by lia. reflexivity. }
    repeat split; try discriminate;
      repeat (rewrite poke_lookup; case_decide; try lia);
      reflexivity.
Qed.

(** The prologues of [load_binary], run: the [READ] cell and the primitive
    cell end up with the effective addresses. *)
Lemma binary_prologues (deref_1 deref_2 : bool) (i : INSTRUCTION) (a b : N)
    (m : machine) :
  let p := pos (_ptr m) in
  let q := p + deref_size deref_2 + deref_size deref_1 in
  in_code p -> q + 1 <= _END -> a < _MAIN -> b < _MAIN ->
  exists m1 s,
    load_binary deref_1 deref_2 i (Some a) (Some b) m = Ok m1 /\
    run (prologue_rounds deref_1 deref_2) (goto p m1) = Running s /\
    pos (_ptr s) = q /\
    ins (tape s !!! q) = I_READ /\
    data (tape s !!! q) = effective deref_2 (tape m) b /\
    ins (tape s !!! (q + 1)) = i /\
    data (tape s !!! (q + 1)) = effective deref_1 (tape m) a /\
    forall c, c < _MAIN -> tape s !!! c = tape m !!! c.
Proof.
  intros p q [Hlo Hhi] Hfit Ha Hb.
  destruct (load_binary_cells deref_1 deref_2 i a b m Hfit)
    as (m1 & Hload & Hbelow & Hr & Hrd & Hi & Hid & H2 & H1).
  fold p in Hbelow, H2, H1. fold q in Hr, Hrd, Hi, Hid, H2, H1.
  exists m1.
  assert (Hdata : forall c, c < _MAIN -> tape m1 !!! c = tape m !!! c)
    by (intros c Hc; apply Hbelow; lia).
  destruct deref_2, deref_1; unfold deref_size, prologue_rounds, effective in *;
    cbn [Nat.add].
  - destruct (H2 eq_refl) as (Hp0 & Hp0d & Hp1 & Hp1d).
    destruct (H1 eq_refl) as (Hp2 & Hp2d & Hp3 & Hp3d).
    destruct (run_prologue (goto p m1) b 3) as (s2 & Hrun2 & Hpos2 & Hpatch2 & Hrest2);
      rewrite ?pos_goto, ?tape_goto;
      try done; try (unfold_bounds; lia); try (rewrite Hp1d; lia).
    rewrite pos_goto, tape_goto in *.
    destruct (run_prologue s2 a 2) as (s4 & Hrun4 & Hpos4 & Hpatch4 & Hrest4);
      rewrite ?Hpos2; try (unfold_bounds; lia).
    { rewrite Hrest2 by lia. replace (p + 2) with (q - 2) by lia. exact Hp2. }
    { rewrite Hrest2 by lia. replace (p + 2) with (q - 2) by lia. exact Hp2d. }
    { rewrite Hrest2 by lia. replace (p + 2 + 1) with (q - 1) by lia. exact Hp3. }
    { rewrite Hrest2 by lia. replace (p + 2 + 1) with (q - 1) by lia.
      rewrite Hp3d. lia. }
    rewrite Hpos2 in *.
    exists s4. split; [exact Hload|].
    split.
    { change (run (2 + 2) (goto p m1) = Running s4).
      rewrite (run_more 2 2 _ _ Hrun2). exact Hrun4. }
    split; [lia|].
    replace (p + 2 + 1 + 2) with (q + 1) in * by lia.
    replace (p + 1 + 3) with q in * by lia.
    split. { rewrite Hrest4 by lia. rewrite Hpatch2. exact Hr. }
    split. { rewrite Hrest4 by lia. rewrite Hpatch2. cbn [data]. by rewrite Hdata. }
    split. { rewrite Hpatch4. cbn [ins]. rewrite Hrest2 by lia. exact Hi. }
    split. { rewrite Hpatch4. cbn [data]. rewrite Hrest2 by (unfold_bounds; lia).
             by rewrite Hdata. }
    intros c Hc. rewrite Hrest4, Hrest2 by (unfold_bounds; lia). by apply Hdata.
  - destruct (H2 eq_refl) as (Hp0 & Hp0d & Hp1 & Hp1d).
    destruct (run_prologue (goto p m1) b 1) as (s2 & Hrun2 & Hpos2 & Hpatch2 & Hrest2);
      rewrite ?pos_goto, ?tape_goto;
      try done; try (unfold_bounds; lia); try (rewrite Hp1d; lia).
    rewrite pos_goto, tape_goto in *.
    replace (p + 1 + 1) with q in * by lia.
    exists s2. split; [exact Hload|]. split; [exact Hrun2|].
    split; [lia|].
    split. { rewrite Hpatch2. exact Hr. }
    split. { rewrite Hpatch2. cbn [data]. by rewrite Hdata. }
    split. { rewrite Hrest2 by lia. exact Hi. }
    split. { rewrite Hrest2 by lia. exact Hid. }
    intros c Hc. rewrite Hrest2 by (unfold_bounds; lia). by apply Hdata.
  - destruct (H1 eq_refl) as (Hp2 & Hp2d & Hp3 & Hp3d).
    replace (q - 2) with p in * by lia. replace (q - 1) with (p + 1) in * by lia.
    destruct (run_prologue (goto p m1) a 2) as (s2 & Hrun2 & Hpos2 & Hpatch2 & Hrest2);
      rewrite ?pos_goto, ?tape_goto;
      try done; try (unfold_bounds; lia); try (rewrite Hp3d; lia).
    rewrite pos_goto, tape_goto in *.
    replace (p + 1 + 2) with (q + 1) in * by lia.
    exists s2. split; [exact Hload|]. split; [exact Hrun2|].
    split; [lia|].
    split. { rewrite Hrest2 by lia. exact Hr. }
    split. { rewrite Hrest2 by lia. exact Hrd. }
    split. { rewrite Hpatch2. exact Hi. }
    split. { rewrite Hpatch2. cbn [data]. by rewrite Hdata. }
    intros c Hc. rewrite Hrest2 by (unfold_bounds; lia). by apply Hdata.
  - exists (goto p m1). split; [exact Hload|]. split; [reflexivity|].
    rewrite pos_goto, tape_goto.
    split; [lia|]. done.
Qed.

(** Side conditions on concrete states. *)
Ltac side :=
  first [ reflexivity | vm_compute; discriminate
        | split; vm_compute; discriminate ].

(** The two-operand mnemonics apart from [put] emit the cells of
    [load_binary]; [sub] only moves the emit pointer further. *)
Lemma two_operand_as_binary (mnemonic : string) (i : INSTRUCTION)
    (a1 a2 : option DWORD) (data_type : BYTE) (deref_1 deref_2 : bool)
    (m m1 : machine) :
  two_operand_primitive mnemonic = Some i ->
  load_binary deref_1 deref_2 i a1 a2 m = Ok m1 ->
  exists m1',
    load_instruction mnemonic a1 a2 data_type deref_1 deref_2 m = Ok m1' /\
    forall p, goto p m1' = goto p m1.
Proof.
  intros Hprim Hbin. unfold two_operand_primitive in Hprim.
  repeat match type of Hprim with
    | (if String.eqb mnemonic ?s then _ else _) = _ =>
        destruct (String.eqb mnemonic s) eqn:Heq;
        [ apply String.eqb_eq in Heq; subst mnemonic; injection Hprim as <-;
          first [ by exists m1
                | exists (with_pos (wrap (pos (_ptr m1) + 1)) m1);
                  split; [|done];
                  change (load_instruction "sub" a1 a2 data_type deref_1 deref_2)
                    with (load_binary deref_1 deref_2 I_SUB a1 a2 >> advance);
                  by rewrite (andthen_ok _ _ _ _ Hbin) ]
        | clear Heq ]
    end.
  discriminate Hprim.
Qed.

(** X21.  Bracketed operands are resolved at run time by the cells emitted
    in front of the instruction: once these prologues have run, the [READ]
    cell holds the effective address of the second operand and the primitive
    cell that of the first, for every two-operand mnemonic and every mix of
    plain and bracketed operands, and no cell below the code region has
    changed. *)
Theorem indirect_operands_resolved (mnemonic : string) (i : INSTRUCTION)
    (deref_1 deref_2 : bool) (a b : N) (m : machine) :
  let p := pos (_ptr m) in
  let q := p + deref_size deref_2 + deref_size deref_1 in
  two_operand_primitive mnemonic = Some i ->
  in_code p -> q + 1 <= _END -> a < _MAIN -> b < _MAIN ->
  exists m1 s,
    load_instruction mnemonic (Some a) (Some b) 0 deref_1 deref_2 m = Ok m1 /\
    run (prologue_rounds deref_1 deref_2) (goto p m1) = Running s /\
    pos (_ptr s) = q /\
    ins (tape s !!! q) = I_READ /\
    data (tape s !!! q) = effective deref_2 (tape m) b /\
    ins (tape s !!! (q + 1)) = i /\
    data (tape s !!! (q + 1)) = effective deref_1 (tape m) a /\
    forall c, c < _MAIN -> tape s !!! c = tape m !!! c.
Proof.
  intros p q Hprim Hp Hfit Ha Hb.
  destruct (binary_prologues deref_1 deref_2 i a b m Hp Hfit Ha Hb)
    as (m1 & s & Hload & Hrun & Hrest).
  destruct (two_operand_as_binary mnemonic i _ _ 0 _ _ m m1 Hprim Hload)
    as (m1' & Hload' & Hsame).
  exists m1', s. split; [exact Hload'|]. split; [|exact Hrest].
  fold p in Hrun. by rewrite Hsame.
Qed.

Lemma indirect_operands_resolved_witness :
  exists m1 s,
    load_instruction "add" (Some 17) (Some 17) 0 true true pointer_state = Ok m1 /\
    run 4 (goto _MAIN m1) = Running s /\
    data (tape s !!! (_MAIN + 4)) = 16 /\ data (tape s !!! (_MAIN + 5)) = 16.
Proof.
  destruct (indirect_operands_resolved "add" I_ADD true true 17 17 pointer_state
              eq_refl ltac:(side) ltac:(side) ltac:(side) ltac:(side))
    as (m1 & s & Hload & Hrun & _ & _ & Hsrc & _ & Hdst & _).
  exists m1, s. split; [exact Hload|]. split; [exact Hrun|].
  split; [exact Hsrc | exact Hdst].
Defined.

(** X22.  [mov] copies the [data] and [dtype] of the effective source cell
    into the effective destination cell, for every mix of plain and
    bracketed operands, when the operands and the cells they stand for lie
    below the code region.  One destination is special: a value of at most 3
    moved into [DISP], the cell at address 3, is replaced by 4, because the
    cursor test of the [WRITE] reads the cell it has just written.  Of the
    cells below the code region only the destination and [DISP] can
    change. *)
Theorem mov_copies (deref_1 deref_2 : bool) (a b : N) (m : machine) :
  let p := pos (_ptr m) in
  let q := p + deref_size deref_2 + deref_size deref_1 in
  let src := effective deref_2 (tape m) b in
  let dst := effective deref_1 (tape m) a in
  in_code p -> q + 1 <= _END -> a < _MAIN -> b < _MAIN ->
  src < _MAIN -> dst < _MAIN ->
  exists m1 s,
    load_instruction "mov" (Some a) (Some b) 0 deref_1 deref_2 m = Ok m1 /\
    run (prologue_rounds deref_1 deref_2 + 2) (goto p m1) = Running s /\
    pos (_ptr s) = q + 2 /\
    data (tape s !!! dst) = stored dst (data (tape m !!! src)) /\
    (dst ≠ _DISP -> data (tape s !!! dst) = data (tape m !!! src)) /\
    (dst = _DISP ->
     data (tape s !!! dst)
     = if data (tape m !!! src) <=? 3 then 4 else data (tape m !!! src)) /\
    dtype (tape s !!! dst) = dtype (tape m !!! src) /\
    forall c, c < _MAIN -> c ≠ dst -> c ≠ _DISP -> tape s !!! c = tape m !!! c.
Proof.
  intros p q src dst Hp Hfit Ha Hb Hsrc Hdst.
  destruct (binary_prologues deref_1 deref_2 I_WRITE a b m Hp Hfit Ha Hb)
    as (m1 & s & Hload & Hrun & Hpos & Hr & Hrd & Hw & Hwd & Hbelow).
  fold p in Hrun. fold q in Hpos, Hr, Hrd, Hw, Hwd. fold src in Hrd. fold dst in Hwd.
  destruct (run_read_write s src dst)
    as (s2 & Hrun2 & Hpos2 & Hdata & Hdtype & _ & Hrest);
    rewrite ?Hpos; try done; try (unfold_bounds; lia).
  rewrite (Hbelow src Hsrc) in Hdata, Hdtype.
  exists m1, s2. split; [exact Hload|].
  split. { rewrite (run_more _ 2 _ _ Hrun). exact Hrun2. }
  split; [rewrite Hpos2; by rewrite Hpos|].
  split; [exact Hdata|].
  split; [intros Hne; by rewrite Hdata, stored_other|].
  split; [intros Heq; rewrite Hdata, Heq; reflexivity|].
  split; [exact Hdtype|].
  intros c Hc Hc1 Hc2. rewrite Hrest by done. by apply Hbelow.
Qed.

Lemma mov_copies_witness :
  exists m1 s,
    load_instruction "mov" (Some 101000) (Some 17) 0 false true pointer_state = Ok m1 /\
    run 4 (goto _MAIN m1) = Running s /\
    data (tape s !!! 101000) = data (tape pointer_state !!! 16).
Proof.
  destruct (mov_copies false true 101000 17 pointer_state
              ltac:(side) ltac:(side) ltac:(side) ltac:(side) ltac:(side)
              ltac:(side))
    as (m1 & s & Hload & Hrun & _ & _ & Hdata & _).
  exists m1, s. split; [exact Hload|]. split; [exact Hrun|].
  apply Hdata. vm_compute. discriminate.
Defined.

(** The cells of a lowering at [p] as seen on the tape after it. *)
Ltac cells :=
  rewrite ?tape_placed, ?pos_placed;
  repeat (rewrite poke_lookup; case_decide; try lia).

(** X23.  [put a v] with a plain address below the code region and a
    literal: run from its first cell, the three cells store [v] with its
    [dtype] in cell [a] when [v] is at most 300999; a larger literal stops
    the program with the out-of-bounds fault, because the cell that carries
    it is itself fetched as an instruction.  One destination is special: a
    literal of at most 3 put into [DISP], the cell at address 3, is replaced
    by 4, because the cursor test of the [WRITE] reads the cell it has just
    written. *)
Theorem put_stores_literal (a v : N) (data_type : BYTE) (m : machine) :
  let p := pos (_ptr m) in
  in_code p -> p + 2 <= _END -> a < _MAIN ->
  exists m1,
    load_instruction "put" (Some a) (Some v) data_type false false m = Ok m1 /\
    (v <= _END ->
     exists s,
       run 3 (goto p m1) = Running s /\ pos (_ptr s) = p + 3 /\
       data (tape s !!! a) = stored a v /\
       (a ≠ _DISP -> data (tape s !!! a) = v) /\
       (a = _DISP -> data (tape s !!! a) = if v <=? 3 then 4 else v) /\
       dtype (tape s !!! a) = data_type /\
       forall c, c < _MAIN -> c ≠ a -> c ≠ _DISP -> tape s !!! c = tape m !!! c) /\
    (_END < v -> run 3 (goto p m1) = Fault (MemoryOutOfBounds v)).
Proof.
  intros p [Hlo Hhi] Hfit Ha.
  eexists. split; [by apply load_put_direct|].
  set (m1 := placed _ (placed _ (placed _ m))).
  assert (H0 : tape m1 !!! p = mkBLOCK I_NONE v data_type).
  { unfold m1. cells. fold p. cells. reflexivity. }
  assert (H1 : tape m1 !!! (p + 1) = cell I_READ p (tape m !!! (p + 1))).
  { unfold m1. cells. fold p. cells. reflexivity. }
  assert (H2 : tape m1 !!! (p + 2) = cell I_WRITE a (tape m !!! (p + 2))).
  { unfold m1. cells. fold p. cells. reflexivity. }
  assert (Hbelow : forall c, c < _MAIN -> tape m1 !!! c = tape m !!! c).
  { intros c Hc. unfold m1. cells. fold p. cells. reflexivity. }
  split.
  - intros Hv.
    assert (Hs1 : step (goto p m1) = Running (next (goto p m1))).
    { unfold step. rewrite pos_goto, tape_goto, H0. cbn [data ins].
      by rewrite (ltb_false_le _ p), (ltb_false_le _ v) by lia. }
    assert (Hp1 : pos (_ptr (next (goto p m1))) = p + 1)
      by (apply (pos_next_small (goto p m1)); simpl; lia).
    destruct (run_read_write (next (goto p m1)) p a)
      as (s & Hrun & Hpos & Hdata & Hdtype & _ & Hrest);
      rewrite ?Hp1, ?tape_next, ?tape_goto, ?H1;
      try done; try (unfold_bounds; lia).
    { replace (p + 1 + 1) with (p + 2) by lia. by rewrite H2. }
    { replace (p + 1 + 1) with (p + 2) by lia. by rewrite H2. }
    rewrite Hp1, tape_next, tape_goto in *.
    exists s. split.
    { change (run (1 + 2) (goto p m1) = Running s).
      rewrite (run_more 1 2 (goto p m1) (next (goto p m1)));
        [exact Hrun | by rewrite (run_running _ _ _ Hs1)]. }
    split; [lia|]. rewrite Hdata, Hdtype, H0. cbn [data dtype].
    split; [reflexivity|].
    split; [intros Hne; by apply stored_other|].
    split; [intros ->; reflexivity|].
    split; [reflexivity|].
    intros c Hc Hc1 Hc2. rewrite Hrest by done. by apply Hbelow.
  - intros Hv. rewrite run_step. unfold step.
    rewrite pos_goto, tape_goto, H0. cbn [data].
    by rewrite (ltb_false_le _ p), (ltb_true_lt _ v) by lia.
Qed.

Lemma put_stores_literal_witness :
  exists m1 s,
    load_instruction "put" (Some _DISP) (Some 2) 0 false false (with_pos _MAIN boot)
      = Ok m1 /\
    run 3 (goto _MAIN m1) = Running s /\ data (tape s !!! _DISP) = 4.
Proof.
  destruct (put_stores_literal _DISP 2 0 (with_pos _MAIN boot)
              ltac:(side) ltac:(side) ltac:(side))
    as (m1 & Hload & Hrun & _).
  destruct Hrun as (s & Hrun & _ & _ & _ & Hdisp & _);
    [vm_compute; discriminate|].
  exists m1, s. split; [exact Hload|]. split; [exact Hrun|].
  by apply Hdisp.
Defined.

Lemma sub_wrap_small (x y : N) : y <= x -> x < DWORD_MOD -> sub_wrap x y = x - y.
Proof.
  intros Hle Hx. unfold sub_wrap.
  rewrite (wrap_small y) by lia.
  replace (x + (DWORD_MOD - y)) with (x - y + 1 * DWORD_MOD) by lia.
  unfold wrap. rewrite N.Div0.mod_add. apply N.mod_small. lia.
Qed.

(** X24.  The cell [sub] skips does no harm while it is blank: run from its
    first cell, the lowering of [sub a b] subtracts [tape[b].data] from
    [tape[a].data] in 32-bit arithmetic, passes over the skipped cell as a
    [NONE], and arrives at the emit pointer left by the assembler, where the
    next instruction is. *)
Theorem sub_runs_through_gap (a b : N) (m : machine) :
  let p := pos (_ptr m) in
  let va := data (tape m !!! a) in
  let vb := data (tape m !!! b) in
  in_code p -> p + 2 <= _END -> a < _MAIN -> b < _MAIN ->
  tape m !!! (p + 2) = zero_block ->
  exists m1 s,
    load_instruction "sub" (Some a) (Some b) 0 false false m = Ok m1 /\
    run 3 (goto p m1) = Running s /\
    pos (_ptr s) = pos (_ptr m1) /\
    data (tape s !!! a) = sub_wrap va vb /\
    (vb <= va -> va < DWORD_MOD -> data (tape s !!! a) = va - vb) /\
    forall c, c < _MAIN -> c ≠ a -> tape s !!! c = tape m !!! c.
Proof.
  intros p va vb [Hlo Hhi] Hfit Ha Hb Hgap.
  set (m0 := placed (cell I_SUB a) (placed (cell I_READ b) m)).
  assert (H0 : tape m0 !!! p = cell I_READ b (tape m !!! p)).
  { unfold m0. cells. fold p. cells. reflexivity. }
  assert (H1 : tape m0 !!! (p + 1) = cell I_SUB a (tape m !!! (p + 1))).
  { unfold m0. cells. fold p. cells. reflexivity. }
  assert (Hother : forall c, c ≠ p -> c ≠ p + 1 -> tape m0 !!! c = tape m !!! c).
  { intros c Hc1 Hc2. unfold m0. cells. fold p. cells. reflexivity. }
  set (s0 := goto p (with_pos (p + 3) m0)).
  assert (Hs1 : step s0 = Running (next (read b s0))).
  { apply exec_READ; unfold s0; rewrite ?pos_goto, ?tape_goto;
      change (tape (with_pos (p + 3) m0)) with (tape m0); rewrite ?H0;
      try done; unfold_bounds; lia. }
  set (s1 := next (read b s0)).
  assert (Hp1 : pos (_ptr s1) = p + 1)
    by (apply (pos_next_small (read b s0)); simpl; lia).
  set (s2 := next (update_data a (fun d => sub_wrap d vb) s1)).
  assert (Hs2 : step s1 = Running s2).
  { unfold step. rewrite Hp1. change (tape s1) with (tape m0). rewrite H1.
    cbn [cell data ins].
    rewrite (ltb_false_le _ (p + 1)), (ltb_false_le _ a) by (unfold_bounds; lia).
    unfold s2. do 3 f_equal.
    change (ptr_data (_ptr s1)) with (data (tape m0 !!! b)).
    rewrite Hother by (unfold_bounds; lia). reflexivity. }
  assert (Hp2 : pos (_ptr s2) = p + 2).
  { unfold s2. rewrite pos_next, ptr_update_data, Hp1.
    rewrite wrap_small by (unfold_bounds; lia). lia. }
  assert (Hcell : tape s2 !!! (p + 2) = zero_block).
  { unfold s2. autorewrite with machine. change (tape s1) with (tape m0).
    rewrite poke_other by (unfold_bounds; lia).
    rewrite Hother by lia. exact Hgap. }
  assert (Hs3 : step s2 = Running (next s2)).
  { unfold step. rewrite Hp2, Hcell. cbn [zero_block data ins].
    rewrite (ltb_false_le _ (p + 2)) by lia.
    by rewrite (ltb_false_le _END 0) by (unfold _END; lia). }
  exists (with_pos (p + 3) m0), (next s2).
  split; [apply sub_lowering; fold p; lia|].
  split.
  { fold s0. rewrite (run_running _ _ _ Hs1). fold s1.
    rewrite (run_running _ _ _ Hs2), (run_running _ _ _ Hs3). reflexivity. }
  split.
  { rewrite pos_next, Hp2. rewrite wrap_small by (unfold_bounds; lia).
    simpl. lia. }
  assert (Hres : data (tape (next s2) !!! a) = sub_wrap va vb).
  { unfold s2. autorewrite with machine. rewrite poke_same. cbn [set_data data].
    change (tape s1) with (tape m0). rewrite Hother by (unfold_bounds; lia).
    reflexivity. }
  split; [exact Hres|].
  split. { intros Hle Hva. rewrite Hres. by apply sub_wrap_small. }
  intros c Hc Hca. unfold s2. autorewrite with machine.
  rewrite poke_other by congruence. change (tape s1) with (tape m0).
  apply Hother; unfold_bounds; lia.
Qed.

Lemma sub_runs_through_gap_witness :
  exists m1 s,
    load_instruction "sub" (Some 6) (Some 5) 0 false false cmp_state = Ok m1 /\
    run 3 (goto _MAIN m1) = Running s /\
    pos (_ptr s) = pos (_ptr m1) /\ data (tape s !!! 6) = 5.
Proof.
  destruct (sub_runs_through_gap 6 5 cmp_state
              ltac:(side) ltac:(side) ltac:(side) ltac:(side) ltac:(side))
    as (m1 & s & Hload & Hrun & Hpos & _ & Hdiff & _).
  exists m1, s. split; [exact Hload|]. split; [exact Hrun|].
  split; [exact Hpos|]. apply Hdiff; vm_compute; [discriminate | reflexivity].
Defined.

Lemma jump_primitive_unary (mnemonic : string) (i : INSTRUCTION) (t : N)
    (m : machine) :
  jump_primitive mnemonic = Some i ->
  pos (_ptr m) <= _END ->
  load_instruction mnemonic (Some t) None 0 false false m
  = Ok (placed (cell i t) m) /\
  (i = I_JE \/ i = I_JNE \/ i = I_JG \/ i = I_JGE \/ i = I_JL \/ i = I_JLE).
Proof.
  intros Hprim Hp. unfold jump_primitive in Hprim.
  repeat match type of Hprim with
    | (if String.eqb mnemonic ?s then _ else _) = _ =>
        destruct (String.eqb mnemonic s) eqn:Heq;
        [ apply String.eqb_eq in Heq; rewrite Heq; injection Hprim as <-;
          split;
          [ lazymatch goal with
            | |- load_instruction ?s' _ _ _ _ _ _ = Ok (placed (cell ?j _) _) =>
                change (load_instruction s' (Some t) None 0 false false)
                  with (load_unary false j (Some t))
            end;
            apply load_unary_direct; exact Hp
          | clear; tauto ]
        | clear Heq ]
    end.
  discriminate Hprim.
Qed.

(** X25.  After [cmp a b], with [a] other than the flag cell [ZF], each
    conditional jump goes to its target exactly when its comparison holds of
    the two values as unsigned numbers ([je] equal, [jne] different, [jg]
    greater, [jge] at least, [jl] less, [jle] at most) and to the next cell
    otherwise. *)
Theorem cmp_then_jump (mnemonic : string) (i : INSTRUCTION) (a b t : N)
    (m : machine) :
  let p := pos (_ptr m) in
  jump_primitive mnemonic = Some i ->
  in_code p -> p + 2 <= _END -> a < _MAIN -> b < _MAIN -> a ≠ _ZF -> t <= _END ->
  exists m1 s,
    (load_instruction "cmp" (Some a) (Some b) 0 false false >>
     load_instruction mnemonic (Some t) None 0 false false) m = Ok m1 /\
    run 3 (goto p m1) = Running s /\
    pos (_ptr s)
    = if jump_taken i (data (tape m !!! a)) (data (tape m !!! b)) then t else p + 3.
Proof.
  intros p Hprim [Hlo Hhi] Hfit Ha Hb Hzf Ht.
  set (m0 := placed (cell I_CMP a) (placed (cell I_READ b) m)).
  assert (Hp0 : pos (_ptr m0) = p + 1 + 1) by (unfold m0; by rewrite !pos_placed).
  destruct (jump_primitive_unary mnemonic i t m0 Hprim ltac:(lia)) as [Hjump Hkind].
  set (m1 := placed (cell i t) m0) in *.
  assert (Hasm :
    (load_instruction "cmp" (Some a) (Some b) 0 false false >>
     load_instruction mnemonic (Some t) None 0 false false) m = Ok m1).
  { rewrite (andthen_ok _ _ _ m0); [exact Hjump|].
    apply two_operand_lowering; [reflexivity | discriminate | fold p; lia]. }
  assert (Htape : tape m1
    = poke (p + 1 + 1) (cell i t) (poke (p + 1) (cell I_CMP a)
        (poke p (cell I_READ b) (tape m)))) by reflexivity.
  assert (H0 : tape m1 !!! p = cell I_READ b (tape m !!! p)).
  { rewrite Htape, !poke_other by lia. apply poke_same. }
  assert (H1 : tape m1 !!! (p + 1) = cell I_CMP a (tape m !!! (p + 1))).
  { rewrite Htape, poke_other by lia. rewrite poke_same.
    by rewrite poke_other by lia. }
  assert (H2 : tape m1 !!! (p + 1 + 1) = cell i t (tape m !!! (p + 1 + 1))).
  { rewrite Htape, poke_same. by rewrite !poke_other by lia. }
  assert (Hbelow : forall c, c < _MAIN -> tape m1 !!! c = tape m !!! c).
  { intros c Hc. rewrite Htape, !poke_other; [reflexivity | | |]; lia. }
  rewrite <- (Hbelow a Ha), <- (Hbelow b Hb).
  set (va := data (tape m1 !!! a)). set (vb := data (tape m1 !!! b)).
  set (s0 := goto p m1).
  set (s1 := next (with_scratch vb (dtype (tape m1 !!! b)) s0)).
  assert (Hs1 : step s0 = Running s1).
  { unfold step. change (pos (_ptr s0)) with p. change (tape s0) with (tape m1).
    rewrite H0. simpl.
    rewrite (ltb_false_le _ p), (ltb_false_le _ b) by (unfold_bounds; lia).
    reflexivity. }
  assert (Hp1 : pos (_ptr s1) = p + 1).
  { unfold s1. rewrite pos_next. apply wrap_small. unfold_bounds. simpl. lia. }
  set (s2 := next (update_data _CF (fun _ => flag (va <? vb))
                    (update_data _ZF (fun _ => flag (va =? vb)) s1))).
  assert (Hs2 : step s1 = Running s2).
  { unfold step. rewrite Hp1. change (tape s1) with (tape m1).
    rewrite H1. simpl.
    rewrite (ltb_false_le _ (p + 1)), (ltb_false_le _ a) by (unfold_bounds; lia).
    unfold s2. do 3 f_equal.
    autorewrite with machine. change (tape s1) with (tape m1).
    by rewrite poke_other by congruence. }
  assert (Hp2 : pos (_ptr s2) = p + 1 + 1).
  { unfold s2. rewrite pos_next. autorewrite with machine. rewrite Hp1.
    apply wrap_small. unfold_bounds. lia. }
  assert (Hcf : data (tape s2 !!! _CF) = flag (va <? vb)).
  { unfold s2. autorewrite with machine. by rewrite poke_same. }
  assert (Hzf2 : data (tape s2 !!! _ZF) = flag (va =? vb)).
  { unfold s2. autorewrite with machine.
    rewrite poke_other by (unfold _CF, _ZF; lia). by rewrite poke_same. }
  assert (Hcell : tape s2 !!! (p + 1 + 1) = tape m1 !!! (p + 1 + 1)).
  { unfold s2. autorewrite with machine. change (tape s1) with (tape m1).
    rewrite !poke_other; [reflexivity | |]; unfold_bounds; lia. }
  assert (Hs3 : step s2
    = Running (if jump_taken i va vb then goto t s2 else next s2)).
  { assert (Horder : (vb <? va) = negb (va =? vb) && negb (va <? vb) /\
                     (vb <=? va) = negb (va <? vb) /\
                     (va <=? vb) = (va =? vb) || (va <? vb)).
    { destruct (N.eqb_spec va vb), (N.ltb_spec va vb), (N.ltb_spec vb va),
        (N.leb_spec vb va), (N.leb_spec va vb); simpl; try done; lia. }
    destruct Horder as (Hg & Hge & Hle).
    unfold step. rewrite Hp2, Hcell, H2, Hcf, Hzf2. cbn [cell data ins].
    rewrite (ltb_false_le _ (p + 1 + 1)), (ltb_false_le _ t)
      by (unfold_bounds; lia).
    destruct Hkind as [-> | [-> | [-> | [-> | [-> | ->]]]]]; cbn [jump_taken];
      rewrite ?Hg, ?Hge, ?Hle;
      destruct (va =? vb), (va <? vb); reflexivity. }
  exists m1, (if jump_taken i va vb then goto t s2 else next s2).
  split; [exact Hasm|].
  split.
  { fold s0. rewrite (run_running _ _ _ Hs1).
    rewrite (run_running _ _ _ Hs2), (run_running _ _ _ Hs3). reflexivity. }
  destruct (jump_taken i va vb); [reflexivity|].
  rewrite pos_next, Hp2. rewrite wrap_small by (unfold_bounds; lia). lia.
Qed.

Lemma cmp_then_jump_witness :
  exists m1 s,
    (load_instruction "cmp" (Some 5) (Some 6) 0 false false >>
     load_instruction "jge" (Some 201010) None 0 false false) cmp_state = Ok m1 /\
    run 3 (goto _MAIN m1) = Running s /\ pos (_ptr s) = _MAIN + 3.
Proof.
  destruct (cmp_then_jump "jge" I_JGE 5 6 201010 cmp_state eq_refl
              ltac:(side) ltac:(side) ltac:(side) ltac:(side) ltac:(side)
              ltac:(side))
    as (m1 & s & Hasm & Hrun & Hpos).
  exists m1, s. split; [exact Hasm|]. split; [exact Hrun|].
  rewrite Hpos. vm_compute. reflexivity.
Defined.

(** ** String operands and label lines *)

(** X26.  The last character of a string operand is never emitted, closing
    quote or not: two operands that differ in it only assemble to the same
    cells, so an operand whose closing quote is missing loses its last
    character. *)
Theorem string_operand_last_character (mnemonic first body : string)
    (c c' : ascii) (st : asm_state) :
  assemble_line (mkLine mnemonic first (dquote ++ body ++ String c "")) st
  = assemble_line (mkLine mnemonic first (dquote ++ body ++ String c' "")) st /\
  string_chars (dquote ++ body ++ String c "") = list_ascii_of_string body.
Proof.
  assert (Hchars : forall x,
    string_chars (dquote ++ body ++ String x "") = list_ascii_of_string body).
  { intros x. unfold string_chars, dquote.
    change (String (ascii_of_N 34) "" ++ body ++ String x "")%string
      with (String (ascii_of_N 34) (body ++ String x "")).
    change (String.length (String (ascii_of_N 34) (body ++ String x "")))
      with (S (String.length (body ++ String x ""))).
    rewrite string_length_app.
    replace (S (String.length body + String.length (String x "")) - 2)%nat
      with (String.length body) by (cbn [String.length]; lia).
    change (String.substring 1 (String.length body)
              (String (ascii_of_N 34) (body ++ String x "")))
      with (String.substring 0 (String.length body) (body ++ String x "")).
    by rewrite substring_prefix. }
  split; [|apply Hchars].
  assert (Hquote : forall x,
    is_char (char_at (dquote ++ body ++ String x "") 0) 34 = true)
    by reflexivity.
  destruct st as [labels m]. unfold assemble_line.
  cbn [line_ins line_first line_second].
  by rewrite !Hquote, !Hchars.
Qed.

(** X27.  Whatever stands behind a label on its line is dropped: the line
    records the label, or fails, exactly as the label alone would, and the
    tape and the emit pointer stay as they are. *)
Theorem label_line_drops_rest (token first second : string)
    (labels : gmap string N) (m : machine) :
  defines_label token = true ->
  assemble_line (mkLine token first second) (labels, m)
  = assemble_line (mkLine token "" "") (labels, m) /\
  forall st', assemble_line (mkLine token first second) (labels, m) = Ok st' ->
    st'.2 = m.
Proof.
  intros Hdef.
  unfold defines_label in Hdef. apply andb_prop in Hdef as [Hlen Hcolon].
  apply negb_true_iff in Hlen.
  unfold assemble_line. cbn [line_ins]. rewrite Hlen, Hcolon.
  split; [reflexivity|].
  destruct (_END <? pos (_ptr m)); [discriminate|].
  destruct (labels !! _); [discriminate|]. by intros st' [= <-].
Qed.

Lemma label_line_drops_rest_witness :
  assemble_line (mkLine "main:" "hlt" "") asm_start
  = assemble_line (mkLine "main:" "" "") asm_start.
Proof. apply (label_line_drops_rest "main:" "hlt" "" ∅). reflexivity. Defined.
